(** * Expiry-date manager: the ingredient model and its view projections

    A shallow embedding of [js/dataModel.js], [js/storage.js] (the
    localStorage revision), [js/search.js] and the bar layout of
    [ganttChart.js], followed by the properties proved about them.

    Conventions of the embedding.
    - A JavaScript string is a [string] whose characters stand for UTF-16
      code units below 256 (the Latin-1 range); [length] is [.length].
    - A JavaScript number is [NaN] or a finite double. Time values and
      day counts are integers far below [2 ^ 53], which doubles hold
      exactly, and are kept in [Z]; a percentage is the rational value of
      a double ([Q]), every arithmetic operation on percentages being
      followed by the rounding of binary64 ([Double.round]).
    - The ambient environment (system clock, local time zone, the stream
      behind [Math.random]) is an explicit [Env]; the zone gives the
      offset from UTC at every instant, so that daylight-saving
      transitions are covered.
    - An array is a reference into a store of lists, so that copying and
      in-place sorting are distinguishable. *)

From Stdlib Require Import ZArith QArith Qminmax Qround Qabs Qpower Lqa Lia.
From Stdlib Require Import Ascii String List.
From stdpp Require Import gmap strings list sorting.

Local Open Scope Z_scope.

(** ** JavaScript numbers *)

Inductive jsnum (A : Type) : Type :=
  | NaN : jsnum A
  | Fin (a : A) : jsnum A.
Arguments NaN {A}.
Arguments Fin {A} a.

Definition num_map2 {A B C} (f : A → B → C) (x : jsnum A) (y : jsnum B) : jsnum C :=
  match x, y with
  | Fin a, Fin b => Fin (f a b)
  | _, _ => NaN
  end.

(** Relational operators answer [false] as soon as one side is [NaN]. *)
Definition num_test {A B} (f : A → B → bool) (x : jsnum A) (y : jsnum B) : bool :=
  match x, y with
  | Fin a, Fin b => f a b
  | _, _ => false
  end.

Definition isNaN {A} (x : jsnum A) : bool :=
  match x with NaN => true | Fin _ => false end.

Definition num_ltZ := num_test Z.ltb.
Definition num_leZ := num_test Z.leb.
Definition num_gtZ := num_test Z.gtb.
Definition num_geZ := num_test Z.geb.

(** ** Doubles *)

(** The rounding of binary64 (round to nearest, ties to even) on the
    rationals; [-1074] is the exponent of the smallest subnormal. The
    values of this program stay far below the overflow threshold. *)
Module Double.

(** [floor (log2 x)] for a positive [x] *)
Definition ilog2 (x : Q) : Z :=
  let e := Z.log2 (Qnum x) - Z.log2 (Zpos (Qden x)) in
  if Qle_bool (2 ^ e) x then e else e - 1.

(** The nearest integer, the even one of two at the same distance. *)
Definition rne (x : Q) : Z :=
  let f := Qfloor x in
  match (x - inject_Z f ?= 1 # 2)%Q with
  | Lt => f
  | Gt => f + 1
  | Eq => if Z.even f then f else f + 1
  end.

(** The exponent of the unit in the last place of the double nearest to
    a positive [x]: 53 significant bits. *)
Definition exponent (x : Q) : Z := Z.max (ilog2 x - 52) (-1074).

Definition round_pos (x : Q) : Q :=
  (inject_Z (rne (x / 2 ^ exponent x)) * 2 ^ exponent x)%Q.

Definition round (x : Q) : Q :=
  match (x ?= 0)%Q with
  | Eq => 0%Q
  | Gt => round_pos x
  | Lt => (- round_pos (- x))%Q
  end.

End Double.

(** ** Strings *)

Module JsString.

Definition code (c : ascii) : Z := Z.of_N (N_of_ascii c).

(** [String.prototype.toLowerCase] on the Latin-1 range: A-Z and the
    accented capitals U+00C0..U+00DE (except the multiplication sign). *)
Definition lower_char (c : ascii) : ascii :=
  let n := code c in
  if ((65 <=? n) && (n <=? 90)) || ((192 <=? n) && (n <=? 222) && negb (n =? 215))
  then ascii_of_N (Z.to_N (n + 32))
  else c.

Fixpoint toLowerCase (s : string) : string :=
  match s with
  | EmptyString => EmptyString
  | String c s' => String (lower_char c) (toLowerCase s')
  end.

(** White space and line terminators below 256: TAB, LF, VT, FF, CR,
    SP, NBSP. *)
Definition is_space (c : ascii) : bool :=
  let n := code c in
  ((9 <=? n) && (n <=? 13)) || (n =? 32) || (n =? 160).

Fixpoint trimStart (s : string) : string :=
  match s with
  | EmptyString => EmptyString
  | String c s' => if is_space c then trimStart s' else s
  end.

Fixpoint trimEnd (s : string) : string :=
  match s with
  | EmptyString => EmptyString
  | String c s' =>
      match trimEnd s' with
      | EmptyString => if is_space c then EmptyString else String c EmptyString
      | r => String c r
      end
  end.

Definition trim (s : string) : string := trimEnd (trimStart s).

(** [s.includes(q)] *)
Fixpoint includes (s q : string) : bool :=
  String.prefix q s ||
  match s with
  | EmptyString => false
  | String _ s' => includes s' q
  end.

(** [s.split(sep)[0]] for a one-character separator. *)
Fixpoint split_head (sep : ascii) (s : string) : string :=
  match s with
  | EmptyString => EmptyString
  | String c s' => if Ascii.eqb c sep then EmptyString else String c (split_head sep s')
  end.

(** Truthiness of a string value: only the empty string is falsy. *)
Definition truthy (s : string) : bool :=
  match s with EmptyString => false | _ => true end.

(** Truthiness of a property that may be absent ([undefined]). *)
Definition truthy_opt (o : option string) : bool :=
  match o with Some s => truthy s | None => false end.

(** [o || d] for a string-valued property. *)
Definition or_else (o : option string) (d : string) : string :=
  match o with
  | Some s => if truthy s then s else d
  | None => d
  end.

Definition len (s : string) : Z := Z.of_nat (String.length s).

End JsString.

(** ** Dates *)

Module JsDate.

Definition msPerDay : Z := 1000 * 60 * 60 * 24.

(** Days from 1970-01-01 to the given proleptic Gregorian date
    (ECMAScript [MakeDay]); a day past the end of the month rolls over. *)
Definition days_from_civil (y m d : Z) : Z :=
  let y' := if m <=? 2 then y - 1 else y in
  let era := y' / 400 in
  let yoe := y' - era * 400 in
  let mp := (m + 9) mod 12 in
  let doy := (153 * mp + 2) / 5 + d - 1 in
  let doe := yoe * 365 + yoe / 4 - yoe / 100 + doy in
  era * 146097 + doe - 719468.

(** Year, month, day of a day number. *)
Definition civil_from_days (z : Z) : Z * Z * Z :=
  let z := z + 719468 in
  let era := z / 146097 in
  let doe := z - era * 146097 in
  let yoe := (doe - doe / 1460 + doe / 36524 - doe / 146096) / 365 in
  let doy := doe - (365 * yoe + yoe / 4 - yoe / 100) in
  let mp := (5 * doy + 2) / 153 in
  let d := doy - (153 * mp + 2) / 5 + 1 in
  let m := if mp <? 10 then mp + 3 else mp - 9 in
  let y := yoe + era * 400 in
  (if m <=? 2 then y + 1 else y, m, d).

Definition digit (c : ascii) : option Z :=
  let n := JsString.code c in
  if (48 <=? n) && (n <=? 57) then Some (n - 48) else None.

Definition digits2 (a b : ascii) : option Z :=
  x ← digit a; y ← digit b; Some (10 * x + y).

Definition digits4 (a b c d : ascii) : option Z :=
  x ← digits2 a b; y ← digits2 c d; Some (100 * x + y).

(** [Date.parse] on the date-only form [YYYY-MM-DD], which is read as
    UTC midnight. This is the form produced by the date input of the
    form and by [getTodayString]; every other string is an invalid date
    here. Engines accept further forms (date-times, and formats of their
    own such as [2025-1-8]), on which the parser is not modelled: the
    statements below take the result of parsing as a hypothesis, or
    parse a string of this form or a string without any digit. *)
Definition parse (s : string) : jsnum Z :=
  match s with
  | String y1 (String y2 (String y3 (String y4 (String "-"
    (String m1 (String m2 (String "-"
    (String d1 (String d2 EmptyString))))))))) =>
      match digits4 y1 y2 y3 y4, digits2 m1 m2, digits2 d1 d2 with
      | Some y, Some m, Some d =>
          if (1 <=? m) && (m <=? 12) && (1 <=? d) && (d <=? 31)
          then Fin (days_from_civil y m d * msPerDay)
          else NaN
      | _, _, _ => NaN
      end
  | _ => NaN
  end.

Definition digit_char (n : Z) : ascii := ascii_of_N (Z.to_N (48 + n mod 10)).

Fixpoint pad (width : nat) (n : Z) (acc : string) : string :=
  match width with
  | O => acc
  | S w => pad w (n / 10) (String (digit_char n) acc)
  end.

(** The date part of [toISOString]: four digits for the years 0..9999,
    the signed six-digit form otherwise. *)
Definition isoDate (t : Z) : string :=
  let '(y, m, d) := civil_from_days (t / msPerDay) in
  let year :=
    if (0 <=? y) && (y <=? 9999) then pad 4 y EmptyString
    else String (if y <? 0 then "-"%char else "+"%char) (pad 6 (Z.abs y) EmptyString) in
  (year ++ "-" ++ pad 2 m EmptyString ++ "-" ++ pad 2 d EmptyString)%string.

Definition isoTime (t : Z) : string :=
  let ms := t mod msPerDay in
  (pad 2 (ms / 3600000) EmptyString ++ ":" ++
   pad 2 (ms / 60000 mod 60) EmptyString ++ ":" ++
   pad 2 (ms / 1000 mod 60) EmptyString ++ "." ++
   pad 3 (ms mod 1000) EmptyString)%string.

Definition toISOString (t : Z) : string :=
  (isoDate t ++ "T" ++ isoTime t ++ "Z")%string.

End JsDate.

(** ** The environment *)

(** [LocalTZA t isUTC] is the offset of the local zone in milliseconds,
    local time minus UTC: at the UTC instant [t] when [isUTC] holds, and
    for the local time value [t] otherwise (ECMAScript, LocalTZA). *)
Record Env := {
  clock : Z;                (* [new Date()]: milliseconds since the epoch *)
  LocalTZA : Z → bool → Z;
  random : nat → Z          (* the n-th value of [Math.random() * 16 | 0] *)
}.

Arguments JsDate.parse : simpl never.
Arguments JsString.trim : simpl never.
Arguments JsString.len : simpl never.

Section DateObjects.
Context (env : Env).

(** [new Date()] *)
Definition Date_now : jsnum Z := Fin (clock env).

(** [new Date(s)] for a string [s] *)
Definition Date_new (s : string) : jsnum Z := JsDate.parse s.

(** [d.setHours(0, 0, 0, 0)]: the time value is taken to local time,
    cut down to the start of its day, and taken back to UTC with the
    offset that holds for that local time. *)
Definition setHours0 (d : jsnum Z) : jsnum Z :=
  match d with
  | NaN => NaN
  | Fin t =>
      let local := t + LocalTZA env t true in
      let midnight := local / JsDate.msPerDay * JsDate.msPerDay in
      Fin (midnight - LocalTZA env midnight false)
  end.

(** [a - b] on two dates *)
Definition date_sub : jsnum Z → jsnum Z → jsnum Z := num_map2 Z.sub.

(** [Math.ceil(x / n)] and [Math.floor(x / n)] for a difference [x] of
    time values and the number [n] of milliseconds in a day. The quotient
    is a double; the exact quotient is an integer or at least [1 / n]
    away from one, which is more than the rounding error of the division
    (at most [2 ^ -27] for [x] below [2 ^ 53] in magnitude), so the
    ceiling and the floor of the double are those of the exact
    quotient. *)
Definition ceil_div (x : jsnum Z) (n : Z) : jsnum Z :=
  match x with NaN => NaN | Fin a => Fin (- ((- a) / n)) end.

Definition floor_div (x : jsnum Z) (n : Z) : jsnum Z :=
  match x with NaN => NaN | Fin a => Fin (a / n) end.

(** [getTodayString]: the UTC date of the clock. *)
Definition getTodayString : string :=
  JsString.split_head "T" (JsDate.toISOString (clock env)).

End DateObjects.

Arguments Date_new : simpl never.

(** ** Objects and exceptions *)

(** A plain object with string-valued properties; an absent key reads as
    [undefined]. *)
Abbreviation obj := (gmap string string).

(** The outcome of a block that may throw. *)
Inductive completion (A : Type) : Type :=
  | Normal (a : A) : completion A
  | Throw : completion A.
Arguments Normal {A} a.
Arguments Throw {A}.

(** [try { body } catch (error) { return handler; }] *)
Definition try_catch {A} (body : completion A) (handler : A) : A :=
  match body with
  | Normal a => a
  | Throw => handler
  end.

(** ** dataModel.js *)

Record Ingredient := mkIngredient {
  id : string;
  name : string;
  category : string;
  purchaseDate : string;
  expirationDate : string;
  quantity : string;
  location : string;
  notes : string;
  createdAt : string;
  updatedAt : string
}.

(** The record seen as a plain object, as when it is handed to
    [validateIngredient] or serialised. *)
Definition Ingredient_obj (i : Ingredient) : obj :=
  <["id" := id i]> (<["name" := name i]> (<["category" := category i]>
  (<["purchaseDate" := purchaseDate i]> (<["expirationDate" := expirationDate i]>
  (<["quantity" := quantity i]> (<["location" := location i]>
  (<["notes" := notes i]> (<["createdAt" := createdAt i]>
  (<["updatedAt" := updatedAt i]> ∅))))))))).

Inductive Status := expired | critical | warning | fresh.

Definition status_name (s : Status) : string :=
  match s with
  | expired => "expired"
  | critical => "critical"
  | warning => "warning"
  | fresh => "fresh"
  end.

(** The messages of [validateIngredient], in the order in which they
    appear in the source. *)
Inductive Message :=
  | MsgNameRequired
  | MsgNameTooLong
  | MsgCategoryRequired
  | MsgExpirationRequired
  | MsgInvalidDate
  | MsgPurchaseAfterExpiration.

Record Validation := mkValidation {
  valid : bool;
  errors : gmap string Message
}.

Section DataModel.
Context (env : Env).

Definition hex_digit (v : Z) : ascii :=
  ascii_of_N (Z.to_N (if v <? 10 then 48 + v else 87 + v)).

(** The callback of [generateUUID] applied along the template; [n]
    counts the calls made to [Math.random] so far. *)
Fixpoint uuid_replace (template : string) (n : nat) : string :=
  match template with
  | EmptyString => EmptyString
  | String c rest =>
      let r := random env n mod 16 in
      if Ascii.eqb c "x" then String (hex_digit r) (uuid_replace rest (S n))
      else if Ascii.eqb c "y"
           then String (hex_digit (Z.lor (Z.land r 3) 8)) (uuid_replace rest (S n))
           else String c (uuid_replace rest n)
  end.

Definition generateUUID : string :=
  uuid_replace "xxxxxxxx-xxxx-4xxx-yxxx-xxxxxxxxxxxx" 0.

Definition createIngredient (data : obj) : Ingredient :=
  let now := JsDate.toISOString (clock env) in
  {| id := generateUUID;
     name := JsString.trim (JsString.or_else (data !! "name") "");
     category := JsString.or_else (data !! "category") "";
     purchaseDate := JsString.or_else (data !! "purchaseDate") (getTodayString env);
     expirationDate := JsString.or_else (data !! "expirationDate") "";
     quantity := JsString.trim (JsString.or_else (data !! "quantity") "");
     location := JsString.trim (JsString.or_else (data !! "location") "");
     notes := JsString.trim (JsString.or_else (data !! "notes") "");
     createdAt := now;
     updatedAt := now |}.

(** [!data.f || data.f.trim().length === 0] *)
Definition blank (o : option string) : bool :=
  match o with
  | Some s => negb (JsString.truthy s) || (JsString.len (JsString.trim s) =? 0)
  | None => true
  end.

Definition validate_name (data : obj) (errors : gmap string Message) :=
  if blank (data !! "name") then <["name" := MsgNameRequired]> errors
  else if 100 <? JsString.len (JsString.trim (default "" (data !! "name")))
       then <["name" := MsgNameTooLong]> errors
       else errors.

Definition validate_category (data : obj) (errors : gmap string Message) :=
  if blank (data !! "category") then <["category" := MsgCategoryRequired]> errors
  else errors.

Definition validate_expirationDate (data : obj) (errors : gmap string Message) :=
  if negb (JsString.truthy_opt (data !! "expirationDate"))
  then <["expirationDate" := MsgExpirationRequired]> errors
  else
    let expDate := Date_new (default "" (data !! "expirationDate")) in
    if isNaN expDate then <["expirationDate" := MsgInvalidDate]> errors
    else errors.

Definition validate_purchaseDate (data : obj) (errors : gmap string Message) :=
  if JsString.truthy_opt (data !! "purchaseDate") then
    let purDate := Date_new (default "" (data !! "purchaseDate")) in
    let errors :=
      if isNaN purDate then <["purchaseDate" := MsgInvalidDate]> errors
      else errors in
    if JsString.truthy_opt (data !! "expirationDate") then
      let expDate := Date_new (default "" (data !! "expirationDate")) in
      if negb (isNaN purDate) && negb (isNaN expDate) && num_gtZ purDate expDate
      then <["purchaseDate" := MsgPurchaseAfterExpiration]> errors
      else errors
    else errors
  else errors.

(** The four blocks of [validateIngredient] run in sequence on the same
    [errors] object. *)
Definition validateIngredient (data : obj) : Validation :=
  let errors : gmap string Message := ∅ in
  let errors := validate_name data errors in
  let errors := validate_category data errors in
  let errors := validate_expirationDate data errors in
  let errors := validate_purchaseDate data errors in
  {| valid := Nat.eqb (size errors) 0; errors := errors |}.

(** No operation of the [try] block throws on a string argument, so the
    block always completes normally. *)
Definition calculateDaysRemaining (expirationDate : string) : jsnum Z :=
  try_catch
    (let today := setHours0 env (Date_now env) in
     let expDate := setHours0 env (Date_new expirationDate) in
     let diffTime := date_sub expDate today in
     let diffDays := ceil_div diffTime (1000 * 60 * 60 * 24) in
     Normal diffDays)
    (Fin 0).

Definition getExpirationStatus (ingredient : Ingredient) : Status :=
  let daysRemaining := calculateDaysRemaining (expirationDate ingredient) in
  if num_ltZ daysRemaining (Fin 0) then expired
  else if num_leZ daysRemaining (Fin 3) then critical
  else if num_leZ daysRemaining (Fin 7) then warning
  else fresh.

End DataModel.


(** ** Arrays in a store *)

(** [Array.prototype.sort] with a comparator: the sort is stable, so for a
    consistent comparator its result is the one of this insertion sort,
    which places an element before the first one it does not follow. *)
Section ArraySort.
Context {A : Type} (cmp : A → A → Z).

Fixpoint sort_insert (x : A) (l : list A) : list A :=
  match l with
  | [] => [x]
  | y :: l' => if cmp x y <=? 0 then x :: y :: l' else y :: sort_insert x l'
  end.

Definition Array_sort (l : list A) : list A := foldr sort_insert [] l.
End ArraySort.

Abbreviation ref := nat.
Abbreviation store := (list (list Ingredient)).

(** [[...a]]: a fresh array with the elements of [a]. *)
Definition array_spread (h : store) (a : ref) : ref * store :=
  (length h, h ++ [default [] (h !! a)]).

(** [a.sort(cmp)]: sorts the array [a] in place. *)
Definition array_sort (cmp : Ingredient → Ingredient → Z) (h : store) (a : ref) : store :=
  <[a := Array_sort cmp (default [] (h !! a))]> h.

(** ** Sorting, filtering and statistics (dataModel.js) *)

(** The values held by [compareA] and [compareB]. *)
Inductive SortValue :=
  | VStr (s : string)
  | VNum (n : jsnum Z).

(** [compareA < compareB] *)
Definition value_lt (a b : SortValue) : bool :=
  match a, b with
  | VStr s, VStr t => String.ltb s t
  | VNum m, VNum n => num_ltZ m n
  | _, _ => false
  end.

Definition statusOrder (s : Status) : Z :=
  match s with
  | expired => 0
  | critical => 1
  | warning => 2
  | fresh => 3
  end.

(** *** A tally kept in a plain object *)

(** The names that every plain object inherits from [Object.prototype]. *)
Definition Object_prototype : list string :=
  ["constructor"; "hasOwnProperty"; "isPrototypeOf"; "propertyIsEnumerable";
   "toLocaleString"; "toString"; "valueOf"; "__proto__";
   "__defineGetter__"; "__defineSetter__"; "__lookupGetter__";
   "__lookupSetter__"]%string.

(** The own properties of an object created by [{}] that is only ever
    assigned numbers. *)
Abbreviation tally := (gmap string (jsnum nat)).

(** What [o[k]] reads: an own number, a member inherited from the
    prototype (a function, or the prototype itself under [__proto__]),
    or [undefined]. *)
Inductive Read :=
  | OwnNumber (v : jsnum nat)
  | Inherited
  | Undefined.

Definition tally_get (o : tally) (k : string) : Read :=
  match o !! k with
  | Some v => OwnNumber v
  | None => if bool_decide (k ∈ Object_prototype) then Inherited else Undefined
  end.

(** [o[k] = v] for a number [v]: an own property is created or
    overwritten, except under [__proto__], whose setter ignores a value
    that is not an object. *)
Definition tally_set (o : tally) (k : string) (v : jsnum nat) : tally :=
  if (k =? "__proto__")%string then o else <[k := v]> o.

(** Truthiness: [0], [NaN] and [undefined] are falsy; functions and
    objects are truthy. *)
Definition Read_truthy (r : Read) : bool :=
  match r with
  | OwnNumber (Fin (S _)) => true
  | Inherited => true
  | _ => false
  end.

(** The conversion to a number: a function, an object and [undefined]
    all give [NaN]. *)
Definition Read_number (r : Read) : jsnum nat :=
  match r with
  | OwnNumber v => v
  | _ => NaN
  end.

Definition num_succ (v : jsnum nat) : jsnum nat :=
  match v with
  | NaN => NaN
  | Fin n => Fin (S n)
  end.

Module Stats.
Record t := mk {
  total : nat;
  expired : nat;
  critical : nat;
  warning : nat;
  fresh : nat;
  byCategory : tally
}.
End Stats.

Section Projections.
Context (env : Env).

(** The [switch] of the comparator: the compared value of one record,
    or [None] in the [default] branch. *)
Definition sort_value (sortBy : string) (a : Ingredient) : option SortValue :=
  if (sortBy =? "name")%string then Some (VStr (JsString.toLowerCase (name a)))
  else if (sortBy =? "expiration")%string then Some (VNum (Date_new (expirationDate a)))
  else if (sortBy =? "status")%string
    then Some (VNum (Fin (statusOrder (getExpirationStatus env a))))
  else if (sortBy =? "category")%string then Some (VStr (JsString.toLowerCase (category a)))
  else if (sortBy =? "purchase")%string
    then Some (VNum (Date_new (if JsString.truthy (purchaseDate a)
                               then purchaseDate a else "1900-01-01")))
  else None.

Definition sort_compare (sortBy order : string) (a b : Ingredient) : Z :=
  match sort_value sortBy a, sort_value sortBy b with
  | Some compareA, Some compareB =>
      if value_lt compareA compareB then (if (order =? "asc")%string then -1 else 1)
      else if value_lt compareB compareA then (if (order =? "asc")%string then 1 else -1)
      else 0
  | _, _ => 0
  end.

Definition sortIngredients (ingredients : ref) (sortBy order : string) (h : store)
  : ref * store :=
  let '(sorted, h) := array_spread h ingredients in
  let h := array_sort (sort_compare sortBy order) h sorted in
  (sorted, h).

Definition filterIngredients (ingredients : list Ingredient) (filters : obj)
  : list Ingredient :=
  let filtered := ingredients in
  let filtered :=
    if JsString.truthy_opt (filters !! "search") then
      let query := JsString.trim
                     (JsString.toLowerCase (default "" (filters !! "search"))) in
      List.filter (λ ing,
        JsString.includes (JsString.toLowerCase (name ing)) query ||
        JsString.includes (JsString.toLowerCase (category ing)) query ||
        (JsString.truthy (notes ing) &&
         JsString.includes (JsString.toLowerCase (notes ing)) query)) filtered
    else filtered in
  let filtered :=
    if JsString.truthy_opt (filters !! "category") then
      List.filter (λ ing,
        (category ing =? default "" (filters !! "category"))%string) filtered
    else filtered in
  let filtered :=
    if JsString.truthy_opt (filters !! "status") then
      List.filter (λ ing,
        (status_name (getExpirationStatus env ing) =?
         default "" (filters !! "status"))%string) filtered
    else filtered in
  let filtered :=
    if JsString.truthy_opt (filters !! "startDate") then
      let startDate := Date_new (default "" (filters !! "startDate")) in
      List.filter (λ ing, num_geZ (Date_new (expirationDate ing)) startDate) filtered
    else filtered in
  let filtered :=
    if JsString.truthy_opt (filters !! "endDate") then
      let endDate := Date_new (default "" (filters !! "endDate")) in
      List.filter (λ ing, num_leZ (Date_new (expirationDate ing)) endDate) filtered
    else filtered in
  filtered.

(** [stats[status]++] *)
Definition stats_count (status : Status) (stats : Stats.t) : Stats.t :=
  match status with
  | expired =>
      Stats.mk (Stats.total stats) (S (Stats.expired stats)) (Stats.critical stats)
               (Stats.warning stats) (Stats.fresh stats) (Stats.byCategory stats)
  | critical =>
      Stats.mk (Stats.total stats) (Stats.expired stats) (S (Stats.critical stats))
               (Stats.warning stats) (Stats.fresh stats) (Stats.byCategory stats)
  | warning =>
      Stats.mk (Stats.total stats) (Stats.expired stats) (Stats.critical stats)
               (S (Stats.warning stats)) (Stats.fresh stats) (Stats.byCategory stats)
  | fresh =>
      Stats.mk (Stats.total stats) (Stats.expired stats) (Stats.critical stats)
               (Stats.warning stats) (S (Stats.fresh stats)) (Stats.byCategory stats)
  end.

(** The two statements that count a category: when
    [stats.byCategory[c]] is falsy the entry is set to 0; then the entry
    is incremented, that is, what [stats.byCategory[c]] reads is
    converted to a number and that number plus one is assigned. *)
Definition count_category (c : string) (byCategory : tally) : tally :=
  let byCategory :=
    if Read_truthy (tally_get byCategory c) then byCategory
    else tally_set byCategory c (Fin O) in
  tally_set byCategory c (num_succ (Read_number (tally_get byCategory c))).

(** The body of the [forEach] callback. *)
Definition stats_step (stats : Stats.t) (ing : Ingredient) : Stats.t :=
  let status := getExpirationStatus env ing in
  let stats := stats_count status stats in
  Stats.mk (Stats.total stats) (Stats.expired stats) (Stats.critical stats)
           (Stats.warning stats) (Stats.fresh stats)
           (count_category (category ing) (Stats.byCategory stats)).

(** The function only reads the array; the store is returned as it
    was received. *)
Definition getIngredientStats (ingredients : ref) (h : store) : Stats.t * store :=
  let elements := default [] (h !! ingredients) in
  let stats := Stats.mk (length elements) O O O O ∅ in
  (fold_left stats_step elements stats, h).

End Projections.

(** ** search.js *)

Definition searchIngredients (ingredients : list Ingredient) (query : string)
  : list Ingredient :=
  if negb (JsString.truthy query) || (JsString.len (JsString.trim query) =? 0)
  then ingredients
  else
    let lowerQuery := JsString.trim (JsString.toLowerCase query) in
    List.filter (λ ingredient,
      JsString.includes (JsString.toLowerCase (name ingredient)) lowerQuery ||
      JsString.includes (JsString.toLowerCase (category ingredient)) lowerQuery ||
      (JsString.truthy (notes ingredient) &&
       JsString.includes (JsString.toLowerCase (notes ingredient)) lowerQuery) ||
      (JsString.truthy (location ingredient) &&
       JsString.includes (JsString.toLowerCase (location ingredient)) lowerQuery))
      ingredients.

(** ** ganttChart.js: the position of a bar *)

Definition TIMELINE_DAYS : Z := 90.

Module Bar.
Record t := mk {
  left : jsnum Q;
  width : jsnum Q;
  visible : bool;
  daysFromToday : jsnum Z;
  duration : jsnum Z
}.
End Bar.

(** [Math.max] and [Math.min] of two arguments; [NaN] is contagious. *)
Definition Math_max : jsnum Q → jsnum Q → jsnum Q := num_map2 Qmax.
Definition Math_min : jsnum Q → jsnum Q → jsnum Q := num_map2 Qmin.

(** [(days / windowDays) * 100]: a division and a multiplication of
    doubles. *)
Definition percent (windowDays : Z) (days : jsnum Z) : jsnum Q :=
  match days with
  | NaN => NaN
  | Fin d =>
      Fin (Double.round (Double.round (inject_Z d / inject_Z windowDays) * 100))%Q
  end.

(** [a - b] on doubles *)
Definition num_minus : jsnum Q → jsnum Q → jsnum Q :=
  num_map2 (λ a b, Double.round (a - b)%Q).

Section Gantt.
Context (env : Env).

(** The body of [calculateBarPosition], for a timeline of [windowDays]
    days; the code has the positive constant [TIMELINE_DAYS] there. *)
Definition barPosition (windowDays : Z) (ingredient : Ingredient) : Bar.t :=
  let today := setHours0 env (Date_now env) in
  let purchaseDate :=
    setHours0 env (if JsString.truthy (purchaseDate ingredient)
                   then Date_new (purchaseDate ingredient)
                   else today) in
  let expirationDate := setHours0 env (Date_new (expirationDate ingredient)) in
  let daysFromToday :=
    floor_div (date_sub purchaseDate today) (1000 * 60 * 60 * 24) in
  let leftPercent := Math_max (Fin 0%Q) (percent windowDays daysFromToday) in
  let duration :=
    floor_div (date_sub expirationDate purchaseDate) (1000 * 60 * 60 * 24) in
  let widthPercent := percent windowDays duration in
  let expirationDaysFromToday :=
    floor_div (date_sub expirationDate today) (1000 * 60 * 60 * 24) in
  let visible :=
    num_geZ expirationDaysFromToday (Fin 0) &&
    num_ltZ daysFromToday (Fin windowDays) in
  Bar.mk (Math_min leftPercent (Fin 100%Q))
         (Math_max (Fin 0%Q)
            (Math_min widthPercent (num_minus (Fin 100%Q) leftPercent)))
         visible daysFromToday duration.

Definition calculateBarPosition : Ingredient → Bar.t := barPosition TIMELINE_DAYS.

End Gantt.

(** ** storage.js (the localStorage revision) *)

(** What is kept under [STORAGE_KEY]: nothing, the JSON text of an array
    of objects, or any other text. *)
Inductive Stored :=
  | NoItem
  | ItemArray (l : list obj)
  | ItemOther.

Section Storage.
Context (env : Env).
(** Whether the JSON text of an array fits in the quota of the
    browser; [setItem] throws when it does not. *)
Context (fits : list obj → bool).

Definition loadIngredients (st : Stored) : list obj :=
  match st with
  | ItemArray l => l
  | _ => []
  end.

Definition saveIngredients (ingredients : list obj) (st : Stored) : bool * Stored :=
  if fits ingredients then (true, ItemArray ingredients) else (false, st).

(** [{ ...o, k: v }] where [v] may be [undefined] *)
Definition set_property (k : string) (v : option string) (o : obj) : obj :=
  match v with
  | Some s => <[k := s]> o
  | None => delete k o
  end.

Definition updateIngredient (id : string) (updates : obj) (st : Stored)
  : bool * Stored :=
  let ingredients := loadIngredients st in
  match list_find (λ ing : obj, ing !! "id" = Some id) ingredients with
  | None => (false, st)
  | Some (index, original) =>
      let merged :=
        <["updatedAt" := JsDate.toISOString (clock env)]>
          (set_property "id" (original !! "id") (updates ∪ original)) in
      saveIngredients (<[index := merged]> ingredients) st
  end.

End Storage.

(** ** Notions used in the statements *)

(** *** Strings and days *)

(** A string is clean at its head when it is empty or starts with a
    character that [trim] keeps. *)
Definition clean_head (s : string) : bool :=
  match s with
  | EmptyString => true
  | String c _ => negb (JsString.is_space c)
  end.

(** The number of the local calendar day that contains the instant [t],
    and the instant of its midnight. *)
Definition local_day (env : Env) (t : Z) : Z :=
  (t + LocalTZA env t true) / JsDate.msPerDay.

Definition local_midnight (env : Env) (t : Z) : Z :=
  local_day env t * JsDate.msPerDay
  - LocalTZA env (local_day env t * JsDate.msPerDay) false.

(** The local zone keeps one offset [o] from UTC: no daylight saving
    and no other change of offset. *)
Definition fixed_offset (env : Env) (o : Z) : Prop :=
  ∀ t isUTC, LocalTZA env t isUTC = o.

(** *** Validation *)

(** The rules of the specification, one predicate per field. A property
    is present when it holds a non-empty string. *)
Definition name_rule_violated (data : obj) : Prop :=
  data !! "name" = None ∨
  ∃ s, data !! "name" = Some s ∧
       (JsString.trim s = EmptyString ∨ 100 < JsString.len (JsString.trim s)).

Definition category_rule_violated (data : obj) : Prop :=
  data !! "category" = None ∨
  ∃ s, data !! "category" = Some s ∧ JsString.trim s = EmptyString.

Definition expirationDate_rule_violated (data : obj) : Prop :=
  data !! "expirationDate" = None ∨
  ∃ s, data !! "expirationDate" = Some s ∧ Date_new s = NaN.

Definition purchaseDate_rule_violated (data : obj) : Prop :=
  ∃ s, data !! "purchaseDate" = Some s ∧ s ≠ EmptyString ∧
       (Date_new s = NaN ∨
        ∃ x p e, data !! "expirationDate" = Some x ∧
                 Date_new s = Fin p ∧ Date_new x = Fin e ∧ e < p).

(** The message, if any, that each block of [validateIngredient] leaves
    under its key. *)
Definition name_error (data : obj) : option Message :=
  if blank (data !! "name") then Some MsgNameRequired
  else if 100 <? JsString.len (JsString.trim (default "" (data !! "name")))
       then Some MsgNameTooLong
       else None.

Definition category_error (data : obj) : option Message :=
  if blank (data !! "category") then Some MsgCategoryRequired else None.

Definition expirationDate_error (data : obj) : option Message :=
  if negb (JsString.truthy_opt (data !! "expirationDate")) then Some MsgExpirationRequired
  else if isNaN (Date_new (default "" (data !! "expirationDate")))
       then Some MsgInvalidDate else None.

Definition purchaseDate_error (data : obj) : option Message :=
  if JsString.truthy_opt (data !! "purchaseDate") then
    let purDate := Date_new (default "" (data !! "purchaseDate")) in
    let expDate := Date_new (default "" (data !! "expirationDate")) in
    if JsString.truthy_opt (data !! "expirationDate") && negb (isNaN purDate)
       && negb (isNaN expDate) && num_gtZ purDate expDate
    then Some MsgPurchaseAfterExpiration
    else if isNaN purDate then Some MsgInvalidDate else None
  else None.

Definition put_error (k : string) (m : option Message) (e : gmap string Message) :=
  match m with Some x => <[k := x]> e | None => e end.

(** The date that [createIngredient] stores as [purchaseDate]: the given
    one when it is present, the UTC date of the clock otherwise. *)
Definition stored_purchaseDate (env : Env) (data : obj) : string :=
  JsString.or_else (data !! "purchaseDate") (getTodayString env).

(** *** Filtering and statistics *)

(** A criterion of [filterIngredients] is active when its property holds
    a non-empty string. *)
Definition active (filters : obj) (k q : string) : Prop :=
  filters !! k = Some q ∧ q ≠ EmptyString.

(** The sum of the values of a per-category tally ([NaN] as soon as one
    value is [NaN]), and the sum of the four status counts. *)
Definition sum_values (m : tally) : jsnum nat :=
  map_fold (λ _ v acc, num_map2 Nat.add v acc) (Fin O) m.

Definition bucket_sum (stats : Stats.t) : nat :=
  (Stats.expired stats + Stats.critical stats + Stats.warning stats
   + Stats.fresh stats)%nat.

(** *** The position of a bar *)

(** A number of days as a percentage of the window, in double
    arithmetic; the left edge (before it is capped) and the width of a
    bar, from the day offsets of the purchase and of the expiration. *)
Definition percent_of (windowDays days : Z) : Q :=
  Double.round (Double.round (inject_Z days / inject_Z windowDays) * 100).



(** *** Sorting *)

Global Instance jsnum_eq_dec {A} `{EqDecision A} : EqDecision (jsnum A).
Proof. solve_decision. Defined.

Global Instance SortValue_eq_dec : EqDecision SortValue.
Proof. solve_decision. Defined.

Definition sort_keys : list string :=
  ["name"; "category"; "purchase"; "expiration"; "status"]%string.

(** A compared value is usable when it is not the time value of an
    invalid date; two compared values are of the same kind when both are
    strings or both are numbers. *)
Definition value_ok (v : SortValue) : bool :=
  match v with
  | VNum NaN => false
  | _ => true
  end.

Definition same_kind (u v : SortValue) : bool :=
  match u, v with
  | VStr _, VStr _ => true
  | VNum _, VNum _ => true
  | _, _ => false
  end.

Definition key_ok (env : Env) (sortBy : string) (a : Ingredient) : Prop :=
  ∃ v, sort_value env sortBy a = Some v ∧ value_ok v = true.

(** For the two date keys, the date that is compared parses. *)
Definition dates_parse (sortBy : string) (a : Ingredient) : Prop :=
  (sortBy = "expiration"%string → Date_new (expirationDate a) ≠ NaN) ∧
  (sortBy = "purchase"%string →
   Date_new (if JsString.truthy (purchaseDate a)
             then purchaseDate a else "1900-01-01") ≠ NaN).

(** The order of the specification, stated without the comparator: text
    keys compare case-insensitively, date keys chronologically (a record
    without purchase date standing at 1900-01-01), and the status by its
    severity rank expired < critical < warning < fresh. *)
Definition severity (s : Status) : Z :=
  match s with
  | expired => 0
  | critical => 1
  | warning => 2
  | fresh => 3
  end.

Definition text_before (s t : string) : bool :=
  String.ltb (JsString.toLowerCase s) (JsString.toLowerCase t).

Definition date_before (s t : string) : bool :=
  num_ltZ (Date_new s) (Date_new t).

Definition purchase_or_1900 (a : Ingredient) : string :=
  if JsString.truthy (purchaseDate a) then purchaseDate a else "1900-01-01".

(** [a] is strictly before [b] under the key. *)
Definition spec_before (env : Env) (sortBy : string) (a b : Ingredient) : bool :=
  if (sortBy =? "name")%string then text_before (name a) (name b)
  else if (sortBy =? "category")%string then text_before (category a) (category b)
  else if (sortBy =? "expiration")%string
    then date_before (expirationDate a) (expirationDate b)
  else if (sortBy =? "purchase")%string
    then date_before (purchase_or_1900 a) (purchase_or_1900 b)
  else if (sortBy =? "status")%string
    then severity (getExpirationStatus env a) <? severity (getExpirationStatus env b)
  else false.

(** Two records compare equal on the key when neither is before the
    other. *)
Definition tied (env : Env) (sortBy : string) (a b : Ingredient) : bool :=
  negb (spec_before env sortBy a b) && negb (spec_before env sortBy b a).

(** No two records of the list, at different positions, compare equal. *)
Definition no_ties (env : Env) (sortBy : string) (l : list Ingredient) : Prop :=
  ∀ i j a b, i ≠ j → l !! i = Some a → l !! j = Some b → tied env sortBy a b = false.

(** [a] may stand before [b] in ascending order when the value of [b] is
    not below the value of [a]; in descending order, the other way round. *)
Definition ascending (env : Env) (sortBy : string) (a b : Ingredient) : Prop :=
  ∃ u v, sort_value env sortBy a = Some u ∧ sort_value env sortBy b = Some v ∧
         value_lt v u = false.

Definition descending (env : Env) (sortBy : string) (a b : Ingredient) : Prop :=
  ascending env sortBy b a.

(** ** Sample data *)

(** Noon of 2025-01-05 in Tokyo (UTC+9), with a fixed random stream. *)
Definition env_tokyo : Env :=
  {| clock := 1736046000000; LocalTZA := λ _ _, 9 * 3600000;
     random := λ n, Z.of_nat n |}.

(** Noon of 2025-01-05 in Bogota (UTC-5). *)
Definition env_bogota : Env :=
  {| clock := 1736096400000; LocalTZA := λ _ _, -5 * 3600000;
     random := λ n, Z.of_nat n |}.


(** Europe/Berlin in 2025: UTC+1, and UTC+2 from 2025-03-30 01:00 UTC to
    2025-10-26 01:00 UTC. A local time that the change skips or repeats
    is read with the offset in force before the change. *)
Definition berlin_2025 (t : Z) (isUTC : bool) : Z :=
  let t := if isUTC then t else t - 2 * 3600000 in
  if (1743296400000 <=? t) && (t <? 1761440400000) then 2 * 3600000
  else 1 * 3600000.

(** Noon of 2025-03-31 in Berlin, the day after the clocks went forward. *)
Definition env_berlin : Env :=
  {| clock := 1743415200000; LocalTZA := berlin_2025; random := λ n, Z.of_nat n |}.

(** Noon of 2025-10-25 in Berlin, the day before the clocks go back. *)
Definition env_berlin_october : Env :=
  {| clock := 1761386400000; LocalTZA := berlin_2025; random := λ n, Z.of_nat n |}.

Definition milk : Ingredient :=
  {| id := "6b1f"; name := "Milk"; category := "Dairy";
     purchaseDate := "2025-01-01"; expirationDate := "2025-01-08";
     quantity := "1l"; location := "fridge"; notes := "";
     createdAt := "2025-01-01T08:00:00.000Z";
     updatedAt := "2025-01-01T08:00:00.000Z" |}.

Definition yogurt : Ingredient :=
  {| id := "2c9d"; name := "Yogurt"; category := "Dairy";
     purchaseDate := "2025-01-03"; expirationDate := "2025-01-04";
     quantity := ""; location := "fridge"; notes := "open";
     createdAt := "2025-01-03T08:00:00.000Z";
     updatedAt := "2025-01-03T08:00:00.000Z" |}.

Definition rice : Ingredient :=
  {| id := "77aa"; name := "rice"; category := "Grain";
     purchaseDate := "2024-12-01"; expirationDate := "2025-12-01";
     quantity := "5kg"; location := "shelf"; notes := "";
     createdAt := "2024-12-01T08:00:00.000Z";
     updatedAt := "2024-12-01T08:00:00.000Z" |}.

(** A second record whose name differs from the one of [milk] in case
    only. *)
Definition milk_again : Ingredient :=
  {| id := "9e41"; name := "MILK"; category := "Dairy";
     purchaseDate := "2025-01-04"; expirationDate := "2025-01-12";
     quantity := ""; location := "door"; notes := "";
     createdAt := "2025-01-04T08:00:00.000Z";
     updatedAt := "2025-01-04T08:00:00.000Z" |}.

Definition with_dates (purchase expiration : string) (i : Ingredient) : Ingredient :=
  {| id := id i; name := name i; category := category i;
     purchaseDate := purchase; expirationDate := expiration;
     quantity := quantity i; location := location i; notes := notes i;
     createdAt := createdAt i; updatedAt := updatedAt i |}.

Definition with_category (c : string) (i : Ingredient) : Ingredient :=
  {| id := id i; name := name i; category := c;
     purchaseDate := purchaseDate i; expirationDate := expirationDate i;
     quantity := quantity i; location := location i; notes := notes i;
     createdAt := createdAt i; updatedAt := updatedAt i |}.



(** Form data without a purchase date. *)
Definition form_milk_2020 : obj :=
  <["name" := "Milk"]> (<["category" := "Dairy"]>
  (<["expirationDate" := "2020-01-01"]> ∅)).

Definition form_milk_2025 : obj :=
  <["name" := "  Milk "]> (<["category" := "Dairy"]>
  (<["expirationDate" := "2025-01-10"]> ∅)).

Definition updates_with_createdAt : obj :=
  <["name" := "Oat milk"]> (<["id" := "ffff"]>
  (<["createdAt" := "1999-12-31T00:00:00.000Z"]> ∅)).

(** A storage whose quota is never reached. *)
Definition unlimited : list obj → bool := λ _, true.

(** * Further functions *)

(** ** search.js: the filter pipeline *)

Section SearchPipeline.
Context (env : Env).

Definition filterByCategory (ingredients : list Ingredient) (category' : string)
  : list Ingredient :=
  if negb (JsString.truthy category') then ingredients
  else List.filter (λ ingredient, (category ingredient =? category')%string) ingredients.

Definition filterByStatus (ingredients : list Ingredient) (status : string)
  : list Ingredient :=
  if negb (JsString.truthy status) then ingredients
  else List.filter (λ ingredient,
         (status_name (getExpirationStatus env ingredient) =? status)%string) ingredients.

(** [getCurrentFilters] reads the three controls of the page; what it
    returns is the argument [filters] here. *)
Definition applyAllFilters (ingredients : list Ingredient) (filters : obj)
  : list Ingredient :=
  let filtered := ingredients in
  let filtered :=
    if JsString.truthy_opt (filters !! "search")
    then searchIngredients filtered (default "" (filters !! "search"))
    else filtered in
  let filtered :=
    if JsString.truthy_opt (filters !! "category")
    then filterByCategory filtered (default "" (filters !! "category"))
    else filtered in
  let filtered :=
    if JsString.truthy_opt (filters !! "status")
    then filterByStatus filtered (default "" (filters !! "status"))
    else filtered in
  filtered.

End SearchPipeline.

(** ** storage.js (the localStorage revision): the other operations *)

Section StorageOperations.
Context (fits : list obj → bool).

Definition addIngredient (ingredient : obj) (st : Stored) : bool * Stored :=
  let ingredients := loadIngredients st in
  saveIngredients fits (ingredients ++ [ingredient]) st.

Definition deleteIngredient (id : string) (st : Stored) : bool * Stored :=
  let ingredients := loadIngredients st in
  let filtered := filter (λ ing : obj, ing !! "id" ≠ Some id) ingredients in
  if Nat.eqb (length filtered) (length ingredients) then (false, st)
  else saveIngredients fits filtered st.

Definition getIngredientById (id : string) (st : Stored) : option obj :=
  snd <$> list_find (λ ing : obj, ing !! "id" = Some id) (loadIngredients st).

Definition clearAllIngredients (st : Stored) : bool * Stored := (true, NoItem).

End StorageOperations.

(** ** firebase.js: what is written to and read from a document *)

(** [const { id, ...data } = ingredient]: the data handed to
    [ingredientsCollection.add]. *)
Definition addIngredientToFirestore_data (ingredient : obj) : obj :=
  delete "id" ingredient.

(** [{ id: doc.id, ...doc.data() }]: the record built from a document
    of a snapshot. *)
Definition snapshot_record (docId : string) (data : obj) : obj :=
  data ∪ {["id" := docId]}.

(** [{ ...data, updatedAt: new Date().toISOString() }]: the fields
    handed to [update]. *)
Definition updateIngredientInFirestore_fields (env : Env) (data : obj) : obj :=
  <["updatedAt" := JsDate.toISOString (clock env)]> data.

(** ** app.js *)

(** [date.setDate(date.getDate() + daysOffset)]: the day of the month
    is moved in local time, the time within the day being kept, and the
    result is taken back to UTC with the offset that holds for that
    local time. *)
Definition setDate_plus (env : Env) (t daysOffset : Z) : Z :=
  let local := t + LocalTZA env t true + daysOffset * JsDate.msPerDay in
  local - LocalTZA env local false.

(** [getDateString]: the clock moved by [daysOffset] days with
    [setDate], then the UTC date of the result. *)
Definition getDateString (env : Env) (daysOffset : Z) : string :=
  let date := setDate_plus env (clock env) daysOffset in
  JsString.split_head "T" (JsDate.toISOString date).

(** ** ganttChart.js: when a row gets its bar *)

(** [x > 0] *)
Definition num_positive (x : jsnum Q) : bool :=
  match x with
  | NaN => false
  | Fin q => negb (Qle_bool q 0)
  end.

(** The condition [position.visible && position.width > 0] under which
    [createIngredientRow] adds the bar to the row. *)
Definition row_has_bar (env : Env) (ingredient : Ingredient) : bool :=
  let position := calculateBarPosition env ingredient in
  Bar.visible position && num_positive (Bar.width position).

(** ** Notions used in the further statements *)

Definition is_hex (c : ascii) : bool :=
  let n := JsString.code c in
  ((48 <=? n) && (n <=? 57)) || ((97 <=? n) && (n <=? 102)).

(** The date-only string of a year, a month and a day. *)
Definition date_string (y m d : Z) : string :=
  (JsDate.pad 4 y EmptyString ++ "-" ++ JsDate.pad 2 m EmptyString ++ "-"
   ++ JsDate.pad 2 d EmptyString)%string.

(** The year, the month and the day name a date of the calendar. *)
Definition calendar_date (y m d : Z) : Prop :=
  0 ≤ y ≤ 9999 ∧ JsDate.civil_from_days (JsDate.days_from_civil y m d) = (y, m, d).

(** Local midnights do not go back in time. *)
Definition midnights_monotone (env : Env) : Prop :=
  ∀ t u, t ≤ u → local_midnight env t ≤ local_midnight env u.

(** The first instant of the year 10000. *)
Definition year_10000 : Z := 253402300800000.

(** The criteria of [filterIngredients] as one test. *)
Definition optional (o : option string) (test : string → Ingredient → bool)
  (ing : Ingredient) : bool :=
  negb (JsString.truthy_opt o) || test (default "" o) ing.

Definition count_where (P : Ingredient → bool) (l : list Ingredient) : nat :=
  length (List.filter P l).

(** What one more record of the category [c] makes of the entry that
    the tally holds for [c]. *)
Definition bump (c : string) (entry : option (jsnum nat)) : option (jsnum nat) :=
  if (c =? "__proto__")%string then entry
  else Some match entry with
            | Some (Fin (S n)) => Fin (S (S n))
            | Some _ => Fin 1%nat
            | None => if bool_decide (c ∈ Object_prototype) then NaN else Fin 1%nat
            end.

Definition status_eqb (a b : Status) : bool :=
  (statusOrder a =? statusOrder b).

(** ** Further sample data *)

Definition no_purchase : Ingredient := with_dates "" "2025-01-08" milk.

Definition filters_status (s : string) : obj := {["status" := s]}.

(** The search tests of [filterIngredients] and of [searchIngredients]
    for a query, and the five criteria of [filterIngredients] as one
    test. *)
Definition search_test (q : string) (ing : Ingredient) : bool :=
  JsString.includes (JsString.toLowerCase (name ing))
    (JsString.trim (JsString.toLowerCase q)) ||
  JsString.includes (JsString.toLowerCase (category ing))
    (JsString.trim (JsString.toLowerCase q)) ||
  (JsString.truthy (notes ing) &&
   JsString.includes (JsString.toLowerCase (notes ing))
     (JsString.trim (JsString.toLowerCase q))).

Definition search_test_location (q : string) (ing : Ingredient) : bool :=
  JsString.includes (JsString.toLowerCase (name ing))
    (JsString.trim (JsString.toLowerCase q)) ||
  JsString.includes (JsString.toLowerCase (category ing))
    (JsString.trim (JsString.toLowerCase q)) ||
  (JsString.truthy (notes ing) &&
   JsString.includes (JsString.toLowerCase (notes ing))
     (JsString.trim (JsString.toLowerCase q))) ||
  (JsString.truthy (location ing) &&
   JsString.includes (JsString.toLowerCase (location ing))
     (JsString.trim (JsString.toLowerCase q))).

Definition category_test (c : string) (ing : Ingredient) : bool :=
  (category ing =? c)%string.

Definition status_test (env : Env) (s : string) (ing : Ingredient) : bool :=
  (status_name (getExpirationStatus env ing) =? s)%string.

Definition passes (env : Env) (filters : obj) (ing : Ingredient) : bool :=
  optional (filters !! "search") search_test ing &&
  optional (filters !! "category") category_test ing &&
  optional (filters !! "status") (status_test env) ing &&
  optional (filters !! "startDate")
    (λ d ing, num_geZ (Date_new (expirationDate ing)) (Date_new d)) ing &&
  optional (filters !! "endDate")
    (λ d ing, num_leZ (Date_new (expirationDate ing)) (Date_new d)) ing.

Definition passes_pipeline (env : Env) (filters : obj) (ing : Ingredient) : bool :=
  optional (filters !! "search") search_test_location ing &&
  optional (filters !! "category") category_test ing &&
  optional (filters !! "status") (status_test env) ing.

(** One optional stage of a filter pipeline. *)
Definition optional_stage (o : option string) (test : string → Ingredient → bool)
  (l : list Ingredient) : list Ingredient :=
  if JsString.truthy_opt o then List.filter (test (default "" o)) l else l.

(** * Properties *)

(** ** Worked values *)

Example parse_2025_01_08 : JsDate.parse "2025-01-08" = Fin 1736294400000.
Proof. reflexivity. Qed.

Example iso_2025 : JsDate.toISOString 1736294400123 = "2025-01-08T00:00:00.123Z"%string.
Proof. reflexivity. Qed.

Example trim_ex : JsString.trim "  a b  " = "a b"%string.
Proof. reflexivity. Qed.

Example tokyo_clock : JsDate.toISOString (clock env_tokyo) = "2025-01-05T03:00:00.000Z"%string.
Proof. reflexivity. Qed.

Example bogota_clock : JsDate.toISOString (clock env_bogota) = "2025-01-05T17:00:00.000Z"%string.
Proof. reflexivity. Qed.

Example uuid_ex : generateUUID env_tokyo = "01234567-89ab-4cde-b012-3456789abcde"%string.
Proof. reflexivity. Qed.

Example days_tokyo : calculateDaysRemaining env_tokyo "2025-01-08" = Fin 3.
Proof. reflexivity. Qed.

(** ** Strings *)

Module JsStringFacts.
Import JsString.

Lemma trimEnd_idem s : trimEnd (trimEnd s) = trimEnd s.
Proof.
  induction s as [|c s IH]; [done|]. simpl.
  destruct (trimEnd s) as [|c' r] eqn:E.
  - destruct (is_space c) eqn:Hc; [done|]. simpl. by rewrite Hc.
  - change (trimEnd (String c (String c' r))) with
      (match trimEnd (String c' r) with
       | EmptyString => if is_space c then EmptyString else String c EmptyString
       | r0 => String c r0 end).
    by rewrite IH.
Qed.

Lemma trimStart_clean s : clean_head (trimStart s) = true.
Proof.
  induction s as [|c s IH]; [done|]. simpl.
  destruct (is_space c) eqn:Hc; [done|]. simpl. by rewrite Hc.
Qed.

Lemma trimStart_id s : clean_head s = true → trimStart s = s.
Proof.
  destruct s as [|c s]; [done|]. simpl. by destruct (is_space c).
Qed.

Lemma trimEnd_clean s : clean_head s = true → clean_head (trimEnd s) = true.
Proof.
  destruct s as [|c s]; [done|]. simpl. intros Hc.
  destruct (trimEnd s); [|done].
  destruct (is_space c) eqn:E; [done|]. simpl. by rewrite E.
Qed.

Lemma trim_idem s : trim (trim s) = trim s.
Proof.
  unfold trim.
  rewrite (trimStart_id (trimEnd (trimStart s))).
  - apply trimEnd_idem.
  - apply trimEnd_clean, trimStart_clean.
Qed.

Lemma len_0 s : len s = 0 ↔ s = EmptyString.
Proof.
  unfold len. destruct s as [|c s]; [done|].
  cbn [String.length]. split; [lia|discriminate].
Qed.

Lemma truthy_len s : truthy s = negb (len s =? 0).
Proof. unfold len. by destruct s. Qed.

Lemma append_cons c (s t : string) : (String c s ++ t = String c (s ++ t))%string.
Proof. reflexivity. Qed.

Lemma append_nil (t : string) : (EmptyString ++ t = t)%string.
Proof. reflexivity. Qed.

Lemma prefix_app q s : String.prefix q s = true ↔ ∃ b, s = (q ++ b)%string.
Proof.
  revert s. induction q as [|c q IH]; intros s; simpl.
  - destruct s; split; eauto.
  - setoid_rewrite append_cons. destruct s as [|d s]; simpl.
    + split; [done|]. by intros [b Hb].
    + destruct (ascii_dec c d) as [->|Hne].
      * rewrite IH. split; intros [b Hb]; exists b; congruence.
      * split; [done|]. intros [b Hb]. congruence.
Qed.

(** [includes] is the substring test. *)
Lemma includes_spec s q :
  includes s q = true ↔ ∃ a b, s = (a ++ q ++ b)%string.
Proof.
  induction s as [|c s IH].
  - cbn [includes]. rewrite orb_false_r, prefix_app. split.
    + intros [b Hb]. by exists EmptyString, b.
    + intros ([|d a] & b & Hb); [by exists b|by rewrite append_cons in Hb].
  - cbn [includes]. rewrite orb_true_iff, prefix_app, IH. split.
    + intros [[b Hb]|(a & b & Hb)].
      * by exists EmptyString, b.
      * exists (String c a), b. by rewrite append_cons, Hb.
    + intros ([|d a] & b & Hb).
      * left. by exists b.
      * right. exists a, b. rewrite append_cons in Hb. congruence.
Qed.

End JsStringFacts.

(** ** Doubles *)

Module DoubleFacts.
Import Double.























End DoubleFacts.

(** Worked values: the doubles that JavaScript computes. *)
Example percent_10_of_90 :
  (percent_of 90 10 == 3127499741229511 # 281474976710656)%Q.
Proof. by vm_compute. Qed.

Example percent_1_of_90 :
  (percent_of 90 1 == 2501999792983609 # 2251799813685248)%Q.
Proof. by vm_compute. Qed.

(** ** Local days *)

Lemma msPerDay_value : JsDate.msPerDay = 86400000.
Proof. reflexivity. Qed.

Lemma setHours0_Fin env t : setHours0 env (Fin t) = Fin (local_midnight env t).
Proof. reflexivity. Qed.

Lemma floor_days (d : Z) : d * 86400000 / 86400000 = d.
Proof. apply Z.div_mul. lia. Qed.

Lemma ceil_days (d : Z) : - (- (d * 86400000) / 86400000) = d.
Proof. rewrite <- Z.mul_opp_l, Z.div_mul; lia. Qed.

(** In every zone the days remaining are the ceiling of the difference
    of two local midnights, counted in days of 24 hours. *)
Lemma calculateDaysRemaining_ceil env s t :
  Date_new s = Fin t →
  calculateDaysRemaining env s
  = Fin (- (- (local_midnight env t - local_midnight env (clock env)) / 86400000)).
Proof. intros Hs. unfold calculateDaysRemaining, Date_now. by rewrite Hs. Qed.

(** *** Zones with a fixed offset *)

Lemma local_day_fixed env o t :
  fixed_offset env o → local_day env t = (t + o) / JsDate.msPerDay.
Proof. intros Ho. unfold local_day. by rewrite Ho. Qed.

Lemma local_midnight_fixed env o t :
  fixed_offset env o → local_midnight env t = local_day env t * JsDate.msPerDay - o.
Proof. intros Ho. unfold local_midnight. by rewrite Ho. Qed.

Lemma local_midnight_diff env o t u :
  fixed_offset env o →
  local_midnight env t - local_midnight env u
  = (local_day env t - local_day env u) * JsDate.msPerDay.
Proof. intros Ho. rewrite !(local_midnight_fixed env o) by done. lia. Qed.

(** A date-only string denotes UTC midnight: a whole number of days. *)
Lemma local_day_shift env o (d : Z) :
  fixed_offset env o →
  local_day env (d * JsDate.msPerDay) = d + o / JsDate.msPerDay.
Proof.
  intros Ho. rewrite (local_day_fixed env o) by done.
  rewrite (Z.add_comm (d * _)), Z.div_add; [lia|done].
Qed.

Lemma calculateDaysRemaining_valid env o s t :
  fixed_offset env o →
  Date_new s = Fin t →
  calculateDaysRemaining env s = Fin (local_day env t - local_day env (clock env)).
Proof.
  intros Ho Hs. rewrite (calculateDaysRemaining_ceil env s t Hs).
  rewrite (local_midnight_diff env o) by done.
  rewrite msPerDay_value. by rewrite ceil_days.
Qed.

Lemma calculateDaysRemaining_invalid env s :
  Date_new s = NaN → calculateDaysRemaining env s = NaN.
Proof. intros Hs. unfold calculateDaysRemaining. by rewrite Hs. Qed.

(** The fallback of the [catch] clause is never taken: the result is a
    number of days exactly when the string parses. *)
Lemma calculateDaysRemaining_no_fallback env s :
  calculateDaysRemaining env s = ceil_div (date_sub (setHours0 env (Date_new s))
                                             (setHours0 env (Date_now env)))
                                          86400000.
Proof. reflexivity. Qed.

(** ** Days remaining and status *)

(** C1. Whatever integer [d] the days remaining are, the status is the
    bucket of [d]: expired below 0, critical from 0 to 3, warning from 4
    to 7, fresh from 8 on; the four buckets cover the integers and do not
    overlap, and the six boundary values fall as listed. *)
Theorem getExpirationStatus_buckets env ingredient d :
  calculateDaysRemaining env (expirationDate ingredient) = Fin d →
  (getExpirationStatus env ingredient = expired ↔ d < 0) ∧
  (getExpirationStatus env ingredient = critical ↔ 0 ≤ d ≤ 3) ∧
  (getExpirationStatus env ingredient = warning ↔ 4 ≤ d ≤ 7) ∧
  (getExpirationStatus env ingredient = fresh ↔ 8 ≤ d) ∧
  (d = -1 → getExpirationStatus env ingredient = expired) ∧
  (d = 0 → getExpirationStatus env ingredient = critical) ∧
  (d = 3 → getExpirationStatus env ingredient = critical) ∧
  (d = 4 → getExpirationStatus env ingredient = warning) ∧
  (d = 7 → getExpirationStatus env ingredient = warning) ∧
  (d = 8 → getExpirationStatus env ingredient = fresh).
Proof.
  intros Hd. unfold getExpirationStatus. rewrite Hd.
  unfold num_ltZ, num_leZ, num_test.
  destruct (Z.ltb_spec d 0), (Z.leb_spec d 3), (Z.leb_spec d 7);
    repeat split; intros; first [lia | done].
Qed.

Lemma getExpirationStatus_buckets_witness :
  calculateDaysRemaining env_tokyo (expirationDate milk) = Fin 3 ∧
  getExpirationStatus env_tokyo milk = critical.
Proof.
  split; [reflexivity|].
  apply (getExpirationStatus_buckets env_tokyo milk 3); [reflexivity | lia].
Defined.

(** C2. In every zone the result is the ceiling of the difference, in
    days of 24 hours, between the local midnight of the expiration
    instant and the local midnight of the clock. A date-only string
    denotes midnight UTC, so the claim holds in a zone with a fixed offset
    at or east of UTC: there the result is the number of calendar days
    from the local date of the clock to the expiration date, negative
    exactly for earlier dates, and 3 from 2025-01-05 to 2025-01-08. It
    fails in the code elsewhere. West of UTC the expiration date falls on
    the evening of the local day before: at local noon of 2025-01-05 in
    Bogota a record dated 2025-01-05 has -1 days left and is expired, and
    2025-01-08 is 2 days away. Across a change of offset the midnights
    are not whole days apart: at noon of 2025-03-31 in Berlin, the day
    after the clocks went forward, the date 2025-03-30 is 23 hours back,
    the ceiling is 0 and the record of yesterday is not expired. *)
Theorem calculateDaysRemaining_ceiling :
  (∀ env s t, Date_new s = Fin t →
     ∃ d, calculateDaysRemaining env s = Fin d ∧
          (d - 1) * 86400000 < local_midnight env t - local_midnight env (clock env) ∧
          local_midnight env t - local_midnight env (clock env) ≤ d * 86400000 ∧
          (∀ o, fixed_offset env o → 0 ≤ o < JsDate.msPerDay →
                t mod JsDate.msPerDay = 0 →
                d = t / JsDate.msPerDay - local_day env (clock env) ∧
                (d < 0 ↔ t / JsDate.msPerDay < local_day env (clock env)))) ∧
  JsDate.isoDate (clock env_tokyo + LocalTZA env_tokyo (clock env_tokyo) true)
  = "2025-01-05"%string ∧
  calculateDaysRemaining env_tokyo "2025-01-08" = Fin 3 ∧
  JsDate.isoDate (clock env_bogota + LocalTZA env_bogota (clock env_bogota) true)
  = "2025-01-05"%string ∧
  calculateDaysRemaining env_bogota "2025-01-05" = Fin (-1) ∧
  getExpirationStatus env_bogota (with_dates "2025-01-01" "2025-01-05" milk) = expired ∧
  calculateDaysRemaining env_bogota "2025-01-08" = Fin 2 ∧
  JsDate.isoDate (clock env_berlin + LocalTZA env_berlin (clock env_berlin) true)
  = "2025-03-31"%string ∧
  local_midnight env_berlin 1743292800000 - local_midnight env_berlin (clock env_berlin)
  = - (23 * 3600000) ∧
  calculateDaysRemaining env_berlin "2025-03-30" = Fin 0 ∧
  getExpirationStatus env_berlin (with_dates "2025-03-01" "2025-03-30" milk) = critical.
Proof.
  split; [|by repeat split].
  intros env s t Hs. eexists. split; [by apply calculateDaysRemaining_ceil|].
  set (x := local_midnight env t - local_midnight env (clock env)).
  split_and!.
  - Z.div_mod_to_equations. lia.
  - Z.div_mod_to_equations. lia.
  - intros o Ho Hr Hm. subst x.
    rewrite (local_midnight_diff env o) by done.
    rewrite msPerDay_value, ceil_days.
    assert (local_day env t = t / 86400000) as ->; [|lia].
    rewrite (local_day_fixed env o) by done.
    rewrite msPerDay_value in *. Z.div_mod_to_equations. lia.
Qed.

Lemma calculateDaysRemaining_ceiling_witness :
  ∃ d, calculateDaysRemaining env_tokyo "2025-01-08" = Fin d ∧
       d = 20096 - local_day env_tokyo (clock env_tokyo) ∧ d = 3.
Proof.
  destruct calculateDaysRemaining_ceiling as [H _].
  destruct (H env_tokyo "2025-01-08"%string 1736294400000 eq_refl)
    as (d & Hd & _ & _ & Hcal).
  destruct (Hcal 32400000 (λ _ _, eq_refl)) as [Hdays _];
    [by vm_compute | reflexivity |].
  exists d. split_and!; [exact Hd | exact Hdays | by rewrite Hdays].
Defined.

(** C9. An expiration date that does not parse makes the days remaining
    [NaN], not 0: the constructor of [Date] does not throw, so the
    [catch] clause and its zero are never reached; the status then falls
    through to [fresh], and the bar is computed with [NaN] and hidden. *)
Theorem invalid_date_days_remaining_NaN env :
  (∀ s, Date_new s = NaN →
        calculateDaysRemaining env s = NaN ∧ calculateDaysRemaining env s ≠ Fin 0) ∧
  calculateDaysRemaining env "next week" = NaN ∧
  calculateDaysRemaining env "" = NaN ∧
  getExpirationStatus env (with_dates "2025-01-01" "next week" milk) = fresh ∧
  Bar.width (calculateBarPosition env (with_dates "2025-01-01" "next week" milk)) = NaN ∧
  Bar.visible (calculateBarPosition env (with_dates "2025-01-01" "next week" milk)) = false.
Proof.
  split; [|by repeat split].
  intros s Hs. by rewrite (calculateDaysRemaining_invalid env s Hs).
Qed.

Lemma invalid_date_days_remaining_NaN_witness :
  Date_new "next week" = NaN ∧
  calculateDaysRemaining env_tokyo "next week" = NaN.
Proof.
  split; [reflexivity|].
  destruct (invalid_date_days_remaining_NaN env_tokyo) as [H _].
  by destruct (H "next week" eq_refl).
Defined.

(** ** Validation *)

Section ValidationFacts.
Import JsString JsStringFacts.

Lemma validate_name_put data e :
  validate_name data e = put_error "name" (name_error data) e.
Proof.
  unfold validate_name, name_error.
  by repeat (case_match; simpl).
Qed.

Lemma validate_category_put data e :
  validate_category data e = put_error "category" (category_error data) e.
Proof. unfold validate_category, category_error. by case_match. Qed.

Lemma validate_expirationDate_put data e :
  validate_expirationDate data e
  = put_error "expirationDate" (expirationDate_error data) e.
Proof.
  unfold validate_expirationDate, expirationDate_error.
  by repeat (case_match; simpl).
Qed.

Lemma validate_purchaseDate_put data e :
  validate_purchaseDate data e
  = put_error "purchaseDate" (purchaseDate_error data) e.
Proof.
  unfold validate_purchaseDate, purchaseDate_error.
  destruct (truthy_opt (data !! "purchaseDate")); [|done].
  destruct (truthy_opt (data !! "expirationDate")); simpl.
  - destruct (Date_new (default "" (data !! "purchaseDate"))) as [|p]; [done|].
    destruct (Date_new (default "" (data !! "expirationDate"))) as [|x]; [done|].
    cbn [isNaN negb andb]. by destruct (num_gtZ (Fin p) (Fin x)).
  - by destruct (isNaN _).
Qed.

Lemma validateIngredient_errors data :
  errors (validateIngredient data)
  = put_error "purchaseDate" (purchaseDate_error data)
      (put_error "expirationDate" (expirationDate_error data)
         (put_error "category" (category_error data)
            (put_error "name" (name_error data) ∅))).
Proof.
  unfold validateIngredient. simpl.
  by rewrite validate_name_put, validate_category_put,
    validate_expirationDate_put, validate_purchaseDate_put.
Qed.

Lemma put_error_lookup k m e j :
  put_error k m e !! j = if decide (k = j) then m ∪ e !! j else e !! j.
Proof.
  unfold put_error. destruct m as [x|]; case_decide; subst; simpl.
  - rewrite lookup_insert_eq. by destruct (e !! j).
  - by rewrite lookup_insert_ne.
  - by destruct (e !! j).
  - done.
Qed.

Lemma opt_union_None {A} (m : option A) : m ∪ None = m.
Proof. by destruct m. Qed.

Lemma validateIngredient_lookup data :
  errors (validateIngredient data) !! "name" = name_error data ∧
  errors (validateIngredient data) !! "category" = category_error data ∧
  errors (validateIngredient data) !! "expirationDate" = expirationDate_error data ∧
  errors (validateIngredient data) !! "purchaseDate" = purchaseDate_error data ∧
  ∀ k, k ≠ "name"%string → k ≠ "category"%string → k ≠ "expirationDate"%string →
       k ≠ "purchaseDate"%string → errors (validateIngredient data) !! k = None.
Proof.
  rewrite validateIngredient_errors.
  repeat split; intros; rewrite !put_error_lookup;
    repeat case_decide; try done;
    by rewrite ?lookup_empty, ?opt_union_None.
Qed.

Lemma valid_iff_empty data :
  valid (validateIngredient data) = true ↔ errors (validateIngredient data) = ∅.
Proof.
  change (valid (validateIngredient data))
    with (Nat.eqb (size (errors (validateIngredient data))) 0).
  rewrite Nat.eqb_eq. apply map_size_empty_iff.
Qed.

Lemma valid_iff_no_error data :
  valid (validateIngredient data) = true ↔
  name_error data = None ∧ category_error data = None ∧
  expirationDate_error data = None ∧ purchaseDate_error data = None.
Proof.
  rewrite valid_iff_empty.
  destruct (validateIngredient_lookup data) as (Hn & Hc & He & Hp & Hk).
  split.
  - intros E. rewrite E in Hn, Hc, He, Hp. by rewrite lookup_empty in Hn, Hc, He, Hp.
  - intros (En & Ec & Ee & Ep). apply map_eq. intros k. rewrite lookup_empty.
    destruct (decide (k = "name"%string)) as [->|]; [congruence|].
    destruct (decide (k = "category"%string)) as [->|]; [congruence|].
    destruct (decide (k = "expirationDate"%string)) as [->|]; [congruence|].
    destruct (decide (k = "purchaseDate"%string)) as [->|]; [congruence|].
    by apply Hk.
Qed.

Lemma blank_Some s : blank (Some s) = true ↔ trim s = EmptyString.
Proof.
  unfold blank. rewrite orb_true_iff, Z.eqb_eq, len_0.
  destruct s; simpl; [by split; auto|]. split; [by intros [|]|auto].
Qed.

Lemma blank_false s : blank (Some s) = false ↔ trim s ≠ EmptyString.
Proof. rewrite <- blank_Some. by destruct (blank (Some s)). Qed.

Lemma truthy_opt_Some s : truthy_opt (Some s) = true ↔ s ≠ EmptyString.
Proof. by destruct s. Qed.

Lemma isNaN_true {A} (x : jsnum A) : isNaN x = true ↔ x = NaN.
Proof. by destruct x. Qed.

Lemma name_error_spec data : is_Some (name_error data) ↔ name_rule_violated data.
Proof.
  unfold name_error, name_rule_violated.
  destruct (data !! "name") as [s|] eqn:E;
    [change (default EmptyString (Some s)) with s|simpl].
  - destruct (blank (Some s)) eqn:B.
    + apply blank_Some in B. split; [|by intros; eexists].
      intros _. right. exists s. auto.
    + apply blank_false in B.
      destruct (Z.ltb_spec 100 (len (trim s))).
      * split; [|by intros; eexists]. intros _. right. exists s. auto.
      * split; [by intros []|]. intros [|(s' & [= <-] & [|])]; [done|done|lia].
  - split; [auto|by intros; eexists].
Qed.

Lemma category_error_spec data :
  is_Some (category_error data) ↔ category_rule_violated data.
Proof.
  unfold category_error, category_rule_violated.
  destruct (data !! "category") as [s|] eqn:E.
  - destruct (blank (Some s)) eqn:B.
    + apply blank_Some in B. split; [|by intros; eexists]. intros _. right. eauto.
    + apply blank_false in B. split; [by intros []|].
      by intros [|(s' & [= <-] & ?)].
  - simpl. split; [auto|by intros; eexists].
Qed.

Lemma expirationDate_error_spec data :
  is_Some (expirationDate_error data) ↔ expirationDate_rule_violated data.
Proof.
  unfold expirationDate_error, expirationDate_rule_violated.
  destruct (data !! "expirationDate") as [s|] eqn:E; simpl.
  - destruct s as [|c s]; simpl.
    + split; [|by intros; eexists]. intros _. right. by exists EmptyString.
    + destruct (Date_new (String c s)) eqn:D; simpl.
      * split; [|by intros; eexists]. intros _. right. eauto.
      * split; [by intros []|]. intros [|(s' & [= <-] & ?)]; congruence.
  - split; [auto|by intros; eexists].
Qed.

Lemma purchaseDate_error_spec data :
  is_Some (purchaseDate_error data) ↔ purchaseDate_rule_violated data.
Proof.
  unfold purchaseDate_error, purchaseDate_rule_violated.
  destruct (data !! "purchaseDate") as [s|] eqn:E; simpl;
    [|split; [by intros []|by intros (? & ? & _)]].
  destruct s as [|c s]; simpl; [split; [by intros []|by intros (? & [= <-] & ? & _)]|].
  set (pd := String c s).
  destruct (Date_new pd) as [|p] eqn:P; simpl.
  { rewrite andb_false_r. simpl. split; [|by intros; eexists].
    intros _. exists pd. split_and!; [done|done|by left]. }
  destruct (data !! "expirationDate") as [x|] eqn:X; simpl.
  - destruct x as [|c' x]; simpl.
    + split; [by intros []|].
      intros (s' & [= <-] & _ & [|(x' & p' & e' & [= <-] & _ & ? & _)]);
        [congruence|done].
    + set (ed := String c' x) in *.
      destruct (Date_new ed) as [|e] eqn:Ed; simpl.
      * split; [by intros []|].
        intros (s' & [= <-] & _ & [|(x' & p' & e' & [= <-] & _ & ? & _)]); congruence.
      * unfold num_gtZ, num_test. destruct (Z.gtb_spec p e).
        -- split; [|by intros; eexists]. intros _. exists pd. split_and!; [done|done|].
           right. exists ed, p, e. split_and!; [done|done|done|lia].
        -- split; [by intros []|].
           intros (s' & [= <-] & _ & [|(x' & p' & e' & [= <-] & ? & ? & ?)]);
             [congruence|].
           assert (p' = p) by congruence. assert (e' = e) by congruence. lia.
  - split; [by intros []|].
    intros (s' & [= <-] & _ & [|(x' & p' & e' & ? & _)]); congruence.
Qed.

End ValidationFacts.

(** C8. [validateIngredient] depends on its argument only; it answers
    [valid] exactly when [errors] is empty; each of the four fields has
    an error exactly when its rule is violated, and no other key is
    ever set. *)
Theorem validateIngredient_rules data :
  (valid (validateIngredient data) = true ↔ errors (validateIngredient data) = ∅) ∧
  (is_Some (errors (validateIngredient data) !! "name") ↔ name_rule_violated data) ∧
  (is_Some (errors (validateIngredient data) !! "category")
     ↔ category_rule_violated data) ∧
  (is_Some (errors (validateIngredient data) !! "expirationDate")
     ↔ expirationDate_rule_violated data) ∧
  (is_Some (errors (validateIngredient data) !! "purchaseDate")
     ↔ purchaseDate_rule_violated data) ∧
  (∀ k, is_Some (errors (validateIngredient data) !! k) →
        k ∈ ["name"; "category"; "expirationDate"; "purchaseDate"]%string).
Proof.
  destruct (validateIngredient_lookup data) as (Hn & Hc & He & Hp & Hk).
  split_and!.
  - apply valid_iff_empty.
  - rewrite Hn. apply name_error_spec.
  - rewrite Hc. apply category_error_spec.
  - rewrite He. apply expirationDate_error_spec.
  - rewrite Hp. apply purchaseDate_error_spec.
  - intros k Hs.
    destruct (decide (k = "name"%string)) as [->|]; [set_solver|].
    destruct (decide (k = "category"%string)) as [->|]; [set_solver|].
    destruct (decide (k = "expirationDate"%string)) as [->|]; [set_solver|].
    destruct (decide (k = "purchaseDate"%string)) as [->|]; [set_solver|].
    rewrite Hk in Hs by done. by destruct Hs.
Qed.

Lemma validateIngredient_rules_witness :
  errors (validateIngredient (<["purchaseDate" := "2025-02-01"]> form_milk_2025))
    !! "purchaseDate" = Some MsgPurchaseAfterExpiration ∧
  purchaseDate_rule_violated (<["purchaseDate" := "2025-02-01"]> form_milk_2025) ∧
  "purchaseDate"%string ∈ ["name"; "category"; "expirationDate"; "purchaseDate"]%string.
Proof.
  destruct (validateIngredient_rules (<["purchaseDate" := "2025-02-01"]> form_milk_2025))
    as (_ & _ & _ & _ & Hp & Hk).
  split_and!; [reflexivity | by apply Hp | by apply Hk].
Defined.

(** ** Creation followed by validation *)

Lemma Ingredient_obj_lookup i :
  Ingredient_obj i !! "name" = Some (name i) ∧
  Ingredient_obj i !! "category" = Some (category i) ∧
  Ingredient_obj i !! "expirationDate" = Some (expirationDate i) ∧
  Ingredient_obj i !! "purchaseDate" = Some (purchaseDate i).
Proof. by repeat split. Qed.

Lemma parse_empty : Date_new "" = NaN.
Proof. reflexivity. Qed.

(** C3 (amended). When the data satisfy the rules for name, category and
    expiration date, and the purchase date that [createIngredient]
    stores (the given one when present, today's UTC date otherwise)
    parses and is not later than the expiration date, the created record
    validates. *)
Theorem validate_createIngredient env data nm cat ex p e :
  data !! "name" = Some nm →
  JsString.trim nm ≠ EmptyString → JsString.len (JsString.trim nm) ≤ 100 →
  data !! "category" = Some cat → JsString.trim cat ≠ EmptyString →
  data !! "expirationDate" = Some ex → Date_new ex = Fin e →
  Date_new (stored_purchaseDate env data) = Fin p → p ≤ e →
  valid (validateIngredient (Ingredient_obj (createIngredient env data))) = true.
Proof.
  intros Hn Hnt Hnl Hc Hct He Hex Hp Hpe.
  assert (nm ≠ EmptyString) as Hnm by (by intros ->).
  assert (cat ≠ EmptyString) as Hcat by (by intros ->).
  assert (ex ≠ EmptyString) as Hexn by (by intros ->).
  assert (stored_purchaseDate env data ≠ EmptyString) as Hpn.
  { intros E. rewrite E in Hp. done. }
  apply valid_iff_no_error.
  unfold name_error, category_error, expirationDate_error, purchaseDate_error.
  destruct (Ingredient_obj_lookup (createIngredient env data)) as (-> & -> & -> & ->).
  cbn [createIngredient name category expirationDate purchaseDate default].
  fold (stored_purchaseDate env data).
  rewrite Hn, Hc, He.
  replace (JsString.or_else (Some nm) "") with nm by (by destruct nm).
  replace (JsString.or_else (Some cat) "") with cat by (by destruct cat).
  replace (JsString.or_else (Some ex) "") with ex by (by destruct ex).
  cbv [Datatypes.id]. rewrite Hex, Hp.
  assert (blank (Some (JsString.trim nm)) = false) as ->.
  { apply blank_false. by rewrite JsStringFacts.trim_idem. }
  rewrite JsStringFacts.trim_idem.
  assert (blank (Some cat) = false) as -> by (by apply blank_false).
  destruct (Z.ltb_spec 100 (JsString.len (JsString.trim nm))); [lia|].
  assert (JsString.truthy_opt (Some ex) = true) as -> by (by apply truthy_opt_Some).
  assert (JsString.truthy_opt (Some (stored_purchaseDate env data)) = true) as ->
    by (by apply truthy_opt_Some).
  cbn. unfold num_gtZ, num_test.
  destruct (Z.gtb_spec p e); [lia|done].
Qed.

Lemma validate_createIngredient_witness :
  valid (validateIngredient (Ingredient_obj (createIngredient env_tokyo form_milk_2025)))
  = true.
Proof.
  apply (validate_createIngredient env_tokyo form_milk_2025
           "  Milk " "Dairy" "2025-01-10" 1736035200000 1736467200000);
    first [reflexivity | done | (vm_compute; discriminate)].
Defined.

(** C3 as stated fails: the data below satisfy every rule and carry no
    purchase date; the created record receives today's date as purchase
    date, which is later than the expiration date, so it is rejected. *)
Lemma validate_createIngredient_counterexample :
  valid (validateIngredient form_milk_2020) = true ∧
  form_milk_2020 !! "purchaseDate" = None ∧
  purchaseDate (createIngredient env_tokyo form_milk_2020) = "2025-01-05"%string ∧
  valid (validateIngredient (Ingredient_obj (createIngredient env_tokyo form_milk_2020)))
  = false.
Proof. repeat split; reflexivity. Qed.

(** ** Filtering *)

(** C5. The search of [filterIngredients] does not look at the location,
    which the search of [searchIngredients] does: a record whose location
    alone contains the query is dropped by the former and kept by the
    latter. *)
Theorem filterIngredients_search_skips_location env :
  JsString.includes (JsString.toLowerCase (location milk)) "fridge" = true ∧
  filterIngredients env [milk] {["search" := "fridge"]} = [] ∧
  searchIngredients [milk] "fridge" = [milk].
Proof. repeat split; reflexivity. Qed.

(** What [filterIngredients] does keep: the records that satisfy every
    active criterion, where the search looks at name, category and
    notes. *)
Lemma In_optional_filter (o : option string) (f : string → Ingredient → bool) l ing :
  In ing (if JsString.truthy_opt o then List.filter (f (default "" o)) l else l) ↔
  In ing l ∧ ∀ q, o = Some q → q ≠ EmptyString → f q ing = true.
Proof.
  destruct o as [[|c q]|]; simpl.
  - split; [intros H; split; [done|]; by intros q [= <-]|by intros [H _]].
  - rewrite filter_In. split.
    + intros [H1 H2]. split; [done|]. by intros q' [= <-] _.
    + intros [H1 H2]. split; [done|]. by apply H2.
  - split; [intros H; split; [done|]; by intros q [=]|by intros [H _]].
Qed.

Lemma filterIngredients_conjunctive env l filters ing :
  In ing (filterIngredients env l filters) ↔
  In ing l ∧
  (∀ q, active filters "search" q →
     JsString.includes (JsString.toLowerCase (name ing))
       (JsString.trim (JsString.toLowerCase q)) ||
     JsString.includes (JsString.toLowerCase (category ing))
       (JsString.trim (JsString.toLowerCase q)) ||
     (JsString.truthy (notes ing) &&
      JsString.includes (JsString.toLowerCase (notes ing))
        (JsString.trim (JsString.toLowerCase q))) = true) ∧
  (∀ c, active filters "category" c → category ing = c) ∧
  (∀ s, active filters "status" s → status_name (getExpirationStatus env ing) = s) ∧
  (∀ d, active filters "startDate" d →
     num_geZ (Date_new (expirationDate ing)) (Date_new d) = true) ∧
  (∀ d, active filters "endDate" d →
     num_leZ (Date_new (expirationDate ing)) (Date_new d) = true).
Proof.
  unfold filterIngredients, active. cbv zeta.
  rewrite (In_optional_filter (filters !! "endDate")
             (λ d ing, num_leZ (Date_new (expirationDate ing)) (Date_new d))).
  rewrite (In_optional_filter (filters !! "startDate")
             (λ d ing, num_geZ (Date_new (expirationDate ing)) (Date_new d))).
  rewrite (In_optional_filter (filters !! "status")
             (λ s ing, (status_name (getExpirationStatus env ing) =? s)%string)).
  rewrite (In_optional_filter (filters !! "category")
             (λ c ing, (category ing =? c)%string)).
  rewrite (In_optional_filter (filters !! "search")
             (λ q ing,
                JsString.includes (JsString.toLowerCase (name ing))
                  (JsString.trim (JsString.toLowerCase q)) ||
                JsString.includes (JsString.toLowerCase (category ing))
                  (JsString.trim (JsString.toLowerCase q)) ||
                (JsString.truthy (notes ing) &&
                 JsString.includes (JsString.toLowerCase (notes ing))
                   (JsString.trim (JsString.toLowerCase q))))).
  setoid_rewrite String.eqb_eq. split.
  - intros (((((H0 & H1) & H2) & H3) & H4) & H5).
    split_and!; [done|intros ? [? ?]; eauto..].
  - intros (H0 & H1 & H2 & H3 & H4 & H5).
    split_and!; [done|intros; eauto..].
Qed.

(** ** Updating a stored record *)

(** C4 (amended). When a record with the given id is stored, the first
    such record is replaced by the merge of the record and the updates:
    the id is the original one and [updatedAt] is the current time,
    whatever the updates say; every other property, [createdAt]
    included, takes the value given by the updates when they have one and
    keeps the original value otherwise; the function reports success and
    stores the new array when the write succeeds, and reports failure
    and leaves the storage as it was otherwise. When no record has the
    id, the function reports failure and the storage is unchanged. *)
Theorem updateIngredient_merge env fits id updates st :
  (∀ o, o ∈ loadIngredients st → o !! "id" = Some id →
     ∃ index original merged,
       loadIngredients st !! index = Some original ∧
       original !! "id" = Some id ∧
       (∀ j o', loadIngredients st !! j = Some o' → (j < index)%nat →
                o' !! "id" ≠ Some id) ∧
       merged !! "id" = Some id ∧
       merged !! "updatedAt" = Some (JsDate.toISOString (clock env)) ∧
       (∀ k, k ≠ "id"%string → k ≠ "updatedAt"%string →
             merged !! k = match updates !! k with
                           | Some v => Some v
                           | None => original !! k
                           end) ∧
       (updates !! "createdAt" = None →
        merged !! "createdAt" = original !! "createdAt") ∧
       updateIngredient env fits id updates st
       = if fits (<[index := merged]> (loadIngredients st))
         then (true, ItemArray (<[index := merged]> (loadIngredients st)))
         else (false, st)) ∧
  ((∀ o, o ∈ loadIngredients st → o !! "id" ≠ Some id) →
   updateIngredient env fits id updates st = (false, st)).
Proof.
  split.
  - intros o Ho Hid.
    destruct (list_find_elem_of (λ ing : obj, ing !! "id" = Some id)
                (loadIngredients st) o Ho Hid) as [[index original] Hfind].
    pose proof Hfind as (Hl & Ho' & Hfirst)%list_find_Some.
    exists index, original,
      (<["updatedAt" := JsDate.toISOString (clock env)]>
         (set_property "id" (original !! "id") (updates ∪ original))).
    rewrite Ho'. simpl.
    split_and!; try done.
    + by rewrite lookup_insert_ne, lookup_insert_eq.
    + by rewrite lookup_insert_eq.
    + intros k Hk1 Hk2. rewrite !lookup_insert_ne by done.
      rewrite lookup_union. by destruct (updates !! k), (original !! k).
    + intros Hu. rewrite !lookup_insert_ne by done.
      rewrite lookup_union, Hu. by destruct (original !! "createdAt").
    + unfold updateIngredient. rewrite Hfind, Ho'. reflexivity.
  - intros Hnone. unfold updateIngredient.
    assert (list_find (λ ing : obj, ing !! "id" = Some id) (loadIngredients st) = None)
      as ->; [|done].
    apply list_find_None, Forall_forall. intros o Ho. by apply Hnone.
Qed.

Lemma updateIngredient_merge_witness :
  (∃ merged,
     updateIngredient env_tokyo unlimited "6b1f" updates_with_createdAt
       (ItemArray [Ingredient_obj milk]) = (true, ItemArray [merged]) ∧
     merged !! "id" = Some "6b1f"%string ∧
     merged !! "name" = Some "Oat milk"%string ∧
     merged !! "category" = Some "Dairy"%string) ∧
  updateIngredient env_tokyo unlimited "0000" updates_with_createdAt
    (ItemArray [Ingredient_obj milk]) = (false, ItemArray [Ingredient_obj milk]).
Proof.
  destruct (updateIngredient_merge env_tokyo unlimited "6b1f" updates_with_createdAt
              (ItemArray [Ingredient_obj milk])) as [Hfound _].
  destruct (updateIngredient_merge env_tokyo unlimited "0000" updates_with_createdAt
              (ItemArray [Ingredient_obj milk])) as [_ Hmissing].
  split.
  - destruct (Hfound (Ingredient_obj milk)) as (index & original & merged & Hl & _ & _ &
      Hid & _ & Hk & _ & Hrun); [by left | reflexivity |].
    destruct index as [|index]; [|by destruct index].
    injection Hl as <-. exists merged. split_and!; [exact Hrun | exact Hid | |].
    + by rewrite (Hk "name"%string).
    + by rewrite (Hk "category"%string).
  - apply Hmissing. intros o ->%list_elem_of_singleton. vm_compute. discriminate.
Defined.

(** C4 as stated fails for [createdAt]: an update that carries a
    [createdAt] replaces the original one. *)
Lemma updateIngredient_createdAt_counterexample :
  ∃ merged,
    updateIngredient env_tokyo unlimited "6b1f" updates_with_createdAt
      (ItemArray [Ingredient_obj milk]) = (true, ItemArray [merged]) ∧
    Ingredient_obj milk !! "createdAt" = Some "2025-01-01T08:00:00.000Z"%string ∧
    merged !! "createdAt" = Some "1999-12-31T00:00:00.000Z"%string ∧
    merged !! "createdAt" ≠ Ingredient_obj milk !! "createdAt".
Proof.
  eexists. split; [vm_compute; reflexivity|]. by repeat split.
Qed.

(** ** Statistics *)

Lemma num_add_comm (x y z : jsnum nat) :
  num_map2 Nat.add x (num_map2 Nat.add y z) = num_map2 Nat.add y (num_map2 Nat.add x z).
Proof. destruct x, y, z; simpl; f_equal; lia. Qed.

Lemma sum_values_insert_fresh (m : tally) c v :
  m !! c = None → sum_values (<[c := v]> m) = num_map2 Nat.add v (sum_values m).
Proof.
  intros Hc. unfold sum_values.
  rewrite map_fold_insert_L; [done| |done]. intros. apply num_add_comm.
Qed.

Lemma sum_values_delete (m : tally) c v :
  m !! c = Some v → sum_values m = num_map2 Nat.add v (sum_values (delete c m)).
Proof.
  intros Hc. unfold sum_values.
  rewrite (map_fold_delete_L _ _ c v m); [done| |done]. intros. apply num_add_comm.
Qed.

Lemma not_in_prototype c :
  c ∉ Object_prototype →
  bool_decide (c ∈ Object_prototype) = false ∧ (c =? "__proto__")%string = false.
Proof.
  intros Hc. split; [by apply bool_decide_eq_false|].
  apply String.eqb_neq. intros ->. apply Hc. apply (bool_decide_unpack _). by vm_compute.
Qed.

(** For a category that is not a member of [Object.prototype] the
    object is a finite map: the entry is set to one more than the count
    it held. *)
Lemma count_category_plain c (m : tally) :
  c ∉ Object_prototype →
  count_category c m
  = <[c := Fin (S (match m !! c with Some (Fin n) => n | _ => O end))]> m.
Proof.
  intros [Hp Hq]%not_in_prototype. unfold count_category, tally_get, tally_set.
  rewrite Hp, Hq.
  destruct (m !! c) as [[|[|n]]|] eqn:E; simpl;
    rewrite ?lookup_insert_eq, ?insert_insert_eq, ?E; done.
Qed.

Lemma count_category_sum c (m : tally) n :
  c ∉ Object_prototype →
  (∀ k, m !! k ≠ Some NaN) →
  sum_values m = Fin n →
  sum_values (count_category c m) = Fin (S n) ∧
  (∀ k, count_category c m !! k ≠ Some NaN).
Proof.
  intros Hc Hfin Hsum. rewrite (count_category_plain c m Hc). split.
  - destruct (m !! c) as [[|k]|] eqn:E.
    + by destruct (Hfin c).
    + rewrite <- insert_delete_eq.
      rewrite sum_values_insert_fresh by apply lookup_delete_eq.
      rewrite (sum_values_delete m c _ E) in Hsum.
      destruct (sum_values (delete c m)); [done|].
      simpl in *. injection Hsum as <-. done.
    + rewrite sum_values_insert_fresh by done. by rewrite Hsum.
  - intros k. destruct (decide (c = k)) as [<-|Hne].
    + by rewrite lookup_insert_eq.
    + rewrite lookup_insert_ne by done. apply Hfin.
Qed.

Lemma stats_step_counts env stats ing :
  Stats.total (stats_step env stats ing) = Stats.total stats ∧
  bucket_sum (stats_step env stats ing) = S (bucket_sum stats) ∧
  Stats.byCategory (stats_step env stats ing)
  = count_category (category ing) (Stats.byCategory stats).
Proof.
  unfold stats_step, bucket_sum.
  destruct (getExpirationStatus env ing); simpl; repeat split; lia.
Qed.

Lemma stats_fold_sums env l stats :
  Stats.total (fold_left (stats_step env) l stats) = Stats.total stats ∧
  bucket_sum (fold_left (stats_step env) l stats) = (bucket_sum stats + length l)%nat.
Proof.
  revert stats. induction l as [|ing l IH]; intros stats; simpl.
  - repeat split; lia.
  - destruct (IH (stats_step env stats ing)) as (-> & ->).
    destruct (stats_step_counts env stats ing) as (-> & -> & _).
    repeat split; lia.
Qed.

Lemma stats_fold_byCategory env l : ∀ stats,
  Stats.byCategory (fold_left (stats_step env) l stats)
  = fold_left (λ m ing, count_category (category ing) m) l (Stats.byCategory stats).
Proof.
  induction l as [|ing l IH]; intros stats; [done|]. simpl. rewrite IH.
  by destruct (stats_step_counts env stats ing) as (_ & _ & ->).
Qed.

Lemma stats_fold_categories env l : ∀ stats n,
  Forall (λ ing, category ing ∉ Object_prototype) l →
  (∀ k, Stats.byCategory stats !! k ≠ Some NaN) →
  sum_values (Stats.byCategory stats) = Fin n →
  sum_values (Stats.byCategory (fold_left (stats_step env) l stats))
  = Fin (n + length l)%nat.
Proof.
  induction l as [|ing l IH]; intros stats n Hl Hfin Hsum; simpl.
  - by rewrite Nat.add_0_r.
  - apply Forall_cons in Hl as [Hc Hl].
    destruct (stats_step_counts env stats ing) as (_ & _ & Hb).
    destruct (count_category_sum (category ing) _ n Hc Hfin Hsum) as [Hs Hf].
    rewrite <- Hb in Hs, Hf.
    rewrite (IH (stats_step env stats ing) (S n) Hl Hf Hs). f_equal. lia.
Qed.

(** C10. The statistics of an array: the total is its length and the
    four status counts add up to the total; the store, and with it the
    array, is left as it was. The counts per category add up to the total
    when no category is the name of a member of [Object.prototype]; for
    such a name the tally, a plain object, reads the inherited member
    where it expects its own count: two records of the category
    [constructor] are counted as 1, and a single one as [NaN]. Records
    whose expiration date does not parse are covered (they count as
    fresh). *)
Theorem getIngredientStats_totals env ingredients h l :
  h !! ingredients = Some l →
  Stats.total (getIngredientStats env ingredients h).1 = length l ∧
  (Stats.expired (getIngredientStats env ingredients h).1
   + Stats.critical (getIngredientStats env ingredients h).1
   + Stats.warning (getIngredientStats env ingredients h).1
   + Stats.fresh (getIngredientStats env ingredients h).1
   = Stats.total (getIngredientStats env ingredients h).1)%nat ∧
  (Forall (λ ing, category ing ∉ Object_prototype) l →
   sum_values (Stats.byCategory (getIngredientStats env ingredients h).1)
   = Fin (Stats.total (getIngredientStats env ingredients h).1)) ∧
  (getIngredientStats env ingredients h).2 = h ∧
  (getIngredientStats env ingredients h).2 !! ingredients = Some l ∧
  Stats.byCategory
    (getIngredientStats env 0%nat
       [[with_category "constructor" milk; with_category "constructor" rice]]).1
  = {["constructor"%string := Fin 1%nat]} ∧
  sum_values
    (Stats.byCategory
       (getIngredientStats env 0%nat
          [[with_category "constructor" milk; with_category "constructor" rice]]).1)
  = Fin 1%nat ∧
  Stats.byCategory
    (getIngredientStats env 0%nat [[with_category "constructor" milk]]).1
  = {["constructor"%string := NaN]}.
Proof.
  intros Hl. split_and!; try reflexivity.
  - unfold getIngredientStats. rewrite Hl. simpl.
    by destruct (stats_fold_sums env l (Stats.mk (length l) 0 0 0 0 ∅)) as (-> & _).
  - unfold getIngredientStats. rewrite Hl. simpl.
    destruct (stats_fold_sums env l (Stats.mk (length l) 0 0 0 0 ∅)) as (Ht & Hb).
    rewrite Ht. unfold bucket_sum in Hb. simpl in *. lia.
  - intros Hplain. unfold getIngredientStats. rewrite Hl. simpl.
    destruct (stats_fold_sums env l (Stats.mk (length l) 0 0 0 0 ∅)) as (-> & _).
    rewrite (stats_fold_categories env l _ 0%nat Hplain); [done| |done].
    intros k. cbn [Stats.byCategory]. by rewrite lookup_empty.
  - done.
  - unfold getIngredientStats. cbn [fst]. rewrite stats_fold_byCategory. by vm_compute.
  - unfold getIngredientStats. cbn [fst]. rewrite stats_fold_byCategory. by vm_compute.
  - unfold getIngredientStats. cbn [fst]. rewrite stats_fold_byCategory. by vm_compute.
Qed.

Lemma getIngredientStats_totals_witness :
  Stats.total (getIngredientStats env_tokyo 0%nat [[milk; yogurt; rice]]).1 = 3%nat ∧
  Stats.byCategory (getIngredientStats env_tokyo 0%nat [[milk; yogurt; rice]]).1
  = <["Dairy"%string := Fin 2%nat]> (<["Grain"%string := Fin 1%nat]> ∅) ∧
  sum_values (Stats.byCategory
                (getIngredientStats env_tokyo 0%nat [[milk; yogurt; rice]]).1)
  = Fin 3%nat.
Proof.
  destruct (getIngredientStats_totals env_tokyo 0%nat [[milk; yogurt; rice]]
              [milk; yogurt; rice] eq_refl) as (Ht & _ & Hc & _).
  split_and!; [exact Ht | by vm_compute |].
  rewrite Hc; [by rewrite Ht|].
  repeat constructor; apply (bool_decide_unpack _); by vm_compute.
Defined.

(** ** The position of a bar *)






(** Where the offset of the zone changes, whole days of 24 hours are not
    calendar days: in Berlin, the day after the clocks went forward, a
    record bought the day before and expiring that day spans 23 hours,
    and its duration is counted as 0. *)
Example barPosition_across_offset_change :
  Bar.daysFromToday
    (calculateBarPosition env_berlin (with_dates "2025-03-30" "2025-03-31" milk))
  = Fin (-1) ∧
  Bar.duration
    (calculateBarPosition env_berlin (with_dates "2025-03-30" "2025-03-31" milk))
  = Fin 0 ∧
  row_has_bar env_berlin (with_dates "2025-03-30" "2025-03-31" milk) = false.
Proof. by vm_compute. Qed.

(** ** Sorting *)

Section ArraySortFacts.
Context {A : Type} (cmp : A → A → Z).

Lemma sort_insert_perm x l : sort_insert cmp x l ≡ₚ x :: l.
Proof.
  induction l as [|y l IH]; simpl; [done|].
  destruct (cmp x y <=? 0); [done|].
  rewrite IH. apply Permutation_swap.
Qed.

Lemma Array_sort_perm l : Array_sort cmp l ≡ₚ l.
Proof.
  induction l as [|x l IH]; simpl; [done|].
  by rewrite sort_insert_perm, IH.
Qed.

Section Ordered.
Context (P : A → Prop).
Hypothesis cmp_total : ∀ x y, P x → P y → cmp x y ≤ 0 ∨ cmp y x ≤ 0.
Hypothesis cmp_trans :
  ∀ x y z, P x → P y → P z → cmp x y ≤ 0 → cmp y z ≤ 0 → cmp x z ≤ 0.

Lemma sort_insert_sorted x l :
  P x → Forall P l →
  StronglySorted (λ a b, cmp a b ≤ 0) l →
  StronglySorted (λ a b, cmp a b ≤ 0) (sort_insert cmp x l).
Proof.
  intros Hx. induction l as [|y l IH]; intros HP Hs; simpl.
  - repeat constructor.
  - apply Forall_cons in HP as [Hy HP].
    apply StronglySorted_cons in Hs as [Hyl Hs].
    destruct (Z.leb_spec (cmp x y) 0) as [Hxy|Hxy].
    + apply StronglySorted_cons. split; [|by apply StronglySorted_cons].
      constructor; [done|].
      rewrite Forall_forall in Hyl, HP |- *. intros z Hz.
      apply (cmp_trans x y z); auto.
    + apply StronglySorted_cons. split; [|by apply IH].
      rewrite Forall_forall. intros z Hz.
      rewrite sort_insert_perm in Hz. apply elem_of_cons in Hz as [->|Hz].
      * destruct (cmp_total x y Hx Hy); [lia|done].
      * rewrite Forall_forall in Hyl. by apply Hyl.
Qed.

Lemma Array_sort_sorted l :
  Forall P l → StronglySorted (λ a b, cmp a b ≤ 0) (Array_sort cmp l).
Proof.
  induction l as [|x l IH]; intros HP; simpl; [constructor|].
  apply Forall_cons in HP as [Hx HP].
  apply sort_insert_sorted; [done| |by apply IH].
  rewrite Forall_forall in HP |- *. intros z Hz.
  rewrite Array_sort_perm in Hz. by apply HP.
Qed.
End Ordered.

(** Stability: the records of a class whose members never follow each
    other keep their relative order. *)
Lemma filter_sort_insert (Q : A → Prop) `{!∀ a, Decision (Q a)} x l :
  (∀ y, y ∈ l → Q x → Q y → cmp x y ≤ 0) →
  filter Q (sort_insert cmp x l) = filter Q (x :: l).
Proof.
  induction l as [|y l IH]; intros Hc; simpl; [done|].
  destruct (Z.leb_spec (cmp x y) 0) as [Hxy|Hxy]; [done|].
  assert (filter Q (sort_insert cmp x l) = filter Q (x :: l)) as IH'.
  { apply IH. intros z Hz. apply Hc. by right. }
  destruct (decide (Q y)) as [Hy|Hy].
  - assert (¬ Q x) as Hx.
    { intros Hx. specialize (Hc y ltac:(by left) Hx Hy). lia. }
    rewrite (filter_cons_True _ y) by done.
    rewrite IH'. rewrite !(filter_cons_False _ x) by done.
    by rewrite filter_cons_True.
  - rewrite (filter_cons_False _ y) by done. rewrite IH'.
    destruct (decide (Q x)).
    + rewrite !(filter_cons_True _ x) by done. by rewrite filter_cons_False.
    + rewrite !(filter_cons_False _ x) by done. by rewrite filter_cons_False.
Qed.

Lemma filter_Array_sort (Q : A → Prop) `{!∀ a, Decision (Q a)} l :
  (∀ x y, x ∈ l → y ∈ l → Q x → Q y → cmp x y ≤ 0) →
  filter Q (Array_sort cmp l) = filter Q l.
Proof.
  induction l as [|x l IH]; intros Hc; simpl; [done|].
  rewrite filter_sort_insert.
  - rewrite !filter_cons, IH; [done|].
    intros y z Hy Hz. apply Hc; by right.
  - intros y Hy. rewrite Array_sort_perm in Hy.
    apply Hc; [by left|by right].
Qed.

End ArraySortFacts.

Lemma StronglySorted_reverse {A} (R : relation A) l :
  StronglySorted R l → StronglySorted (flip R) (reverse l).
Proof.
  induction 1 as [|x l Hs IH Hx]; [constructor|].
  rewrite reverse_cons. apply StronglySorted_app_2.
  - intros y z Hy ->%list_elem_of_singleton. unfold flip.
    rewrite Forall_forall in Hx. apply Hx. by apply elem_of_reverse.
  - done.
  - repeat constructor.
Qed.

Lemma StronglySorted_weaken {A} (R S : relation A) l :
  (∀ x y, x ∈ l → y ∈ l → R x y → S x y) →
  StronglySorted R l → StronglySorted S l.
Proof.
  intros HRS Hs. induction Hs as [|x l Hs IH Hx]; [constructor|].
  constructor.
  - apply IH. intros y z Hy Hz. apply HRS; by right.
  - rewrite Forall_forall in Hx |- *. intros y Hy.
    apply HRS; [by left|by right|by apply Hx].
Qed.

Lemma NoDup_fmap_inj_on {A B} (f : A → B) (l : list A) x y :
  NoDup (f <$> l) → x ∈ l → y ∈ l → f x = f y → x = y.
Proof.
  induction l as [|z l IH]; [by intros _ ?%elem_of_nil|].
  rewrite fmap_cons, NoDup_cons.
  intros [Hz Hl] [->|Hx]%elem_of_cons [->|Hy]%elem_of_cons Hf; auto.
  - destruct Hz. rewrite Hf. by apply list_elem_of_fmap_2.
  - destruct Hz. rewrite <- Hf. by apply list_elem_of_fmap_2.
Qed.

(** The order of strings ([<] compares code units, the shorter string
    first when one is a prefix of the other). *)
Lemma ascii_compare_refl a : Ascii.compare a a = Eq.
Proof. unfold Ascii.compare. apply N.compare_refl. Qed.

Lemma ascii_compare_lt_trans a b c :
  Ascii.compare a b = Lt → Ascii.compare b c = Lt → Ascii.compare a c = Lt.
Proof. unfold Ascii.compare. rewrite !N.compare_lt_iff. lia. Qed.

Lemma string_compare_lt_trans s t r :
  String.compare s t = Lt → String.compare t r = Lt → String.compare s r = Lt.
Proof.
  revert t r. induction s as [|a s IH]; intros [|b t] [|c r]; simpl; try done.
  destruct (Ascii.compare a b) eqn:Hab, (Ascii.compare b c) eqn:Hbc; try done.
  - apply Ascii.compare_eq_iff in Hab as ->. rewrite Hbc. apply IH.
  - apply Ascii.compare_eq_iff in Hab as ->. by rewrite Hbc.
  - apply Ascii.compare_eq_iff in Hbc as <-. by rewrite Hab.
  - by rewrite (ascii_compare_lt_trans a b c).
Qed.

Lemma string_ltb_lt s t : String.ltb s t = true ↔ String.compare s t = Lt.
Proof. unfold String.ltb. by destruct (String.compare s t). Qed.

Lemma string_ltb_asym s t : String.ltb s t = true → String.ltb t s = false.
Proof.
  rewrite string_ltb_lt. unfold String.ltb. rewrite (String.compare_antisym s t).
  by destruct (String.compare t s).
Qed.

Lemma string_ltb_tricho s t :
  String.ltb s t = false → String.ltb t s = false → s = t.
Proof.
  unfold String.ltb. rewrite (String.compare_antisym s t).
  destruct (String.compare t s) eqn:E; simpl; try done.
  intros _ _. symmetry. by apply String.compare_eq_iff.
Qed.

Lemma string_ltb_neg_trans s t r :
  String.ltb t s = false → String.ltb r t = false → String.ltb r s = false.
Proof.
  intros Hts Hrt.
  destruct (String.ltb r s) eqn:Hrs; [|done].
  destruct (String.ltb s t) eqn:Hst.
  - destruct (String.ltb t r) eqn:Htr.
    + apply string_ltb_lt in Hst, Htr, Hrs.
      pose proof (string_compare_lt_trans _ _ _ Hst Htr) as Hsr.
      rewrite String.compare_antisym, Hrs in Hsr. done.
    + rewrite (string_ltb_tricho t r Htr Hrt) in Hst.
      apply string_ltb_asym in Hst. congruence.
  - rewrite (string_ltb_tricho s t Hst Hts) in Hrs. congruence.
Qed.

(** The order of compared values. *)
Lemma value_lt_asym u v : value_lt u v = true → value_lt v u = false.
Proof.
  destruct u as [s|[|m]], v as [t|[|n]]; simpl; try done.
  - apply string_ltb_asym.
  - unfold num_ltZ, num_test. lia.
Qed.

Lemma value_lt_irrefl u : value_lt u u = false.
Proof.
  destruct (value_lt u u) eqn:E; [|done].
  by rewrite (value_lt_asym u u E) in E.
Qed.

Lemma value_lt_tricho u v :
  same_kind u v = true → value_ok u = true → value_ok v = true →
  value_lt u v = false → value_lt v u = false → u = v.
Proof.
  destruct u as [s|[|m]], v as [t|[|n]]; simpl; try done.
  - intros _ _ _ H1 H2. f_equal. by apply string_ltb_tricho.
  - unfold num_ltZ, num_test. intros _ _ _ H1 H2. do 2 f_equal. lia.
Qed.

Lemma value_lt_neg_trans u v w :
  same_kind u v = true → same_kind v w = true →
  value_ok u = true → value_ok v = true → value_ok w = true →
  value_lt v u = false → value_lt w v = false → value_lt w u = false.
Proof.
  destruct u as [s|[|m]], v as [t|[|n]], w as [r|[|k]]; simpl; try done.
  - intros _ _ _ _ _. apply string_ltb_neg_trans.
  - unfold num_ltZ, num_test. lia.
Qed.

(** The compared values of one sort key. *)
Lemma sort_value_cases env a :
  sort_value env "name" a = Some (VStr (JsString.toLowerCase (name a))) ∧
  sort_value env "category" a = Some (VStr (JsString.toLowerCase (category a))) ∧
  sort_value env "expiration" a = Some (VNum (Date_new (expirationDate a))) ∧
  sort_value env "purchase" a
  = Some (VNum (Date_new (if JsString.truthy (purchaseDate a)
                          then purchaseDate a else "1900-01-01"))) ∧
  sort_value env "status" a
  = Some (VNum (Fin (statusOrder (getExpirationStatus env a)))).
Proof. by repeat split. Qed.

Lemma sort_value_kind env sortBy a b u v :
  sort_value env sortBy a = Some u → sort_value env sortBy b = Some v →
  same_kind u v = true.
Proof.
  unfold sort_value. repeat case_match; intros; by simplify_eq.
Qed.

Lemma sort_compare_le env sortBy order a b u v :
  sort_value env sortBy a = Some u → sort_value env sortBy b = Some v →
  sort_compare env sortBy order a b ≤ 0 ↔
  (if (order =? "asc")%string then value_lt v u else value_lt u v) = false.
Proof.
  intros Hu Hv. unfold sort_compare. rewrite Hu, Hv.
  destruct (value_lt u v) eqn:Huv.
  - rewrite (value_lt_asym u v Huv). destruct (order =? "asc")%string; split; (done || lia).
  - destruct (value_lt v u) eqn:Hvu; destruct (order =? "asc")%string;
      split; (done || lia).
Qed.

Lemma sort_compare_total env sortBy order x y :
  key_ok env sortBy x → key_ok env sortBy y →
  sort_compare env sortBy order x y ≤ 0 ∨ sort_compare env sortBy order y x ≤ 0.
Proof.
  intros (u & Hu & _) (v & Hv & _).
  rewrite (sort_compare_le env sortBy order x y u v Hu Hv).
  rewrite (sort_compare_le env sortBy order y x v u Hv Hu).
  destruct (value_lt u v) eqn:Huv.
  - rewrite (value_lt_asym u v Huv). destruct (order =? "asc")%string; auto.
  - destruct (order =? "asc")%string; auto.
Qed.

Lemma sort_compare_trans env sortBy order x y z :
  key_ok env sortBy x → key_ok env sortBy y → key_ok env sortBy z →
  sort_compare env sortBy order x y ≤ 0 → sort_compare env sortBy order y z ≤ 0 →
  sort_compare env sortBy order x z ≤ 0.
Proof.
  intros (u & Hu & Huo) (v & Hv & Hvo) (w & Hw & Hwo).
  rewrite (sort_compare_le env sortBy order x y u v Hu Hv).
  rewrite (sort_compare_le env sortBy order y z v w Hv Hw).
  rewrite (sort_compare_le env sortBy order x z u w Hu Hw).
  pose proof (sort_value_kind env sortBy _ _ _ _ Hu Hv) as Kuv.
  pose proof (sort_value_kind env sortBy _ _ _ _ Hv Hw) as Kvw.
  pose proof (sort_value_kind env sortBy _ _ _ _ Hw Hv) as Kwv.
  pose proof (sort_value_kind env sortBy _ _ _ _ Hv Hu) as Kvu.
  destruct (order =? "asc")%string; intros H1 H2.
  - by apply (value_lt_neg_trans u v w).
  - by apply (value_lt_neg_trans w v u).
Qed.

Lemma sortIngredients_eq env ingredients sortBy order h :
  sortIngredients env ingredients sortBy order h
  = (length h,
     h ++ [Array_sort (sort_compare env sortBy order) (default [] (h !! ingredients))]).
Proof.
  unfold sortIngredients, array_spread, array_sort.
  rewrite list_lookup_middle by done. simpl.
  f_equal. by rewrite (insert_app_r_alt h _ (length h)), Nat.sub_diag.
Qed.

Lemma key_ok_of_dates env sortBy a :
  sortBy ∈ sort_keys → dates_parse sortBy a → key_ok env sortBy a.
Proof.
  unfold sort_keys, dates_parse, key_ok.
  rewrite !elem_of_cons, elem_of_nil.
  intros [->|[->|[->|[->|[->|[]]]]]] [He Hp].
  - by eexists.
  - by eexists.
  - eexists. split; [reflexivity|]. simpl.
    specialize (Hp eq_refl).
    match goal with |- match ?d with _ => _ end = _ => by destruct d end.
  - eexists. split; [reflexivity|]. simpl.
    specialize (He eq_refl).
    match goal with |- match ?d with _ => _ end = _ => by destruct d end.
  - by eexists.
Qed.

Lemma sort_compare_ascending env sortBy x y :
  key_ok env sortBy x → key_ok env sortBy y →
  sort_compare env sortBy "asc" x y ≤ 0 ↔ ascending env sortBy x y.
Proof.
  intros (u & Hu & _) (v & Hv & _).
  rewrite (sort_compare_le env sortBy "asc" x y u v Hu Hv). simpl.
  unfold ascending. split.
  - intros H. by exists u, v.
  - intros (u' & v' & Hu' & Hv' & H). congruence.
Qed.

Lemma sort_compare_descending env sortBy x y :
  key_ok env sortBy x → key_ok env sortBy y →
  sort_compare env sortBy "desc" x y ≤ 0 ↔ descending env sortBy x y.
Proof.
  intros (u & Hu & _) (v & Hv & _).
  rewrite (sort_compare_le env sortBy "desc" x y u v Hu Hv). simpl.
  unfold descending, ascending. split.
  - intros H. by exists v, u.
  - intros (v' & u' & Hv' & Hu' & H). congruence.
Qed.

Lemma Array_sort_ordered env sortBy order l :
  Forall (key_ok env sortBy) l →
  StronglySorted (λ a b, sort_compare env sortBy order a b ≤ 0)
    (Array_sort (sort_compare env sortBy order) l).
Proof.
  apply (Array_sort_sorted _ (key_ok env sortBy)).
  - apply sort_compare_total.
  - apply sort_compare_trans.
Qed.

Lemma Array_sort_stable env sortBy order l v :
  filter (λ a, sort_value env sortBy a = Some v)
    (Array_sort (sort_compare env sortBy order) l)
  = filter (λ a, sort_value env sortBy a = Some v) l.
Proof.
  apply filter_Array_sort. intros x y _ _ Hx Hy.
  rewrite (sort_compare_le env sortBy order x y v v Hx Hy).
  destruct (order =? "asc")%string; apply value_lt_irrefl.
Qed.

Lemma Array_sort_reverse env sortBy l :
  Forall (key_ok env sortBy) l →
  NoDup (sort_value env sortBy <$> l) →
  Array_sort (sort_compare env sortBy "desc") l
  = reverse (Array_sort (sort_compare env sortBy "asc") l).
Proof.
  intros HP Hnd. rewrite Forall_forall in HP.
  apply (StronglySorted_unique_strong (λ a b, sort_compare env sortBy "desc" a b ≤ 0)).
  - intros x y Hx Hy Hxy Hyx.
    rewrite Array_sort_perm in Hx.
    rewrite elem_of_reverse, Array_sort_perm in Hy.
    destruct (HP x Hx) as (u & Hu & Huo). destruct (HP y Hy) as (v & Hv & Hvo).
    rewrite (sort_compare_le env sortBy "desc" x y u v Hu Hv) in Hxy.
    rewrite (sort_compare_le env sortBy "desc" y x v u Hv Hu) in Hyx.
    simpl in Hxy, Hyx.
    apply (NoDup_fmap_inj_on (sort_value env sortBy) l); [done..|].
    rewrite Hu, Hv. f_equal.
    apply value_lt_tricho; [by eapply sort_value_kind|done..].
  - apply Array_sort_ordered. by apply Forall_forall.
  - eapply StronglySorted_weaken;
      [|apply StronglySorted_reverse, (Array_sort_ordered env sortBy "asc");
        by apply Forall_forall].
    intros x y Hx Hy. unfold flip.
    rewrite elem_of_reverse, Array_sort_perm in Hx, Hy.
    rewrite (sort_compare_ascending env sortBy y x) by auto.
    by rewrite (sort_compare_descending env sortBy x y) by auto.
  - by rewrite reverse_Permutation, !Array_sort_perm.
Qed.

(** The comparator follows the order of the specification: for each of
    the five keys the compared values are below one another exactly when
    the records are, in that order. *)
Lemma spec_before_value env sortBy a b :
  sortBy ∈ sort_keys →
  ∃ u v, sort_value env sortBy a = Some u ∧ sort_value env sortBy b = Some v ∧
         value_lt u v = spec_before env sortBy a b.
Proof.
  unfold sort_keys. rewrite !elem_of_cons, elem_of_nil.
  intros [->|[->|[->|[->|[->|[]]]]]]; eexists _, _; by repeat split.
Qed.

Lemma ascending_spec env sortBy a b :
  sortBy ∈ sort_keys → ascending env sortBy a b → spec_before env sortBy b a = false.
Proof.
  intros Hk (u & v & Hu & Hv & Hlt).
  destruct (spec_before_value env sortBy b a Hk) as (v' & u' & Hv' & Hu' & <-).
  congruence.
Qed.

Lemma tied_same_value env sortBy a b :
  sortBy ∈ sort_keys → key_ok env sortBy a → key_ok env sortBy b →
  tied env sortBy a b = true ↔ sort_value env sortBy a = sort_value env sortBy b.
Proof.
  intros Hk (u & Hu & Hou) (v & Hv & Hov). unfold tied.
  destruct (spec_before_value env sortBy a b Hk) as (u1 & v1 & Hu1 & Hv1 & <-).
  destruct (spec_before_value env sortBy b a Hk) as (v2 & u2 & Hv2 & Hu2 & <-).
  assert (u1 = u ∧ u2 = u ∧ v1 = v ∧ v2 = v) as (-> & -> & -> & ->)
    by (split_and!; congruence).
  rewrite Hu, Hv, andb_true_iff, !negb_true_iff. split.
  - intros [H1 H2]. f_equal.
    apply value_lt_tricho; [by eapply sort_value_kind|done..].
  - intros [= ->]. by rewrite value_lt_irrefl.
Qed.

Lemma filter_iff_in {A} (P Q : A → Prop) `{!∀ x, Decision (P x)}
    `{!∀ x, Decision (Q x)} (l : list A) :
  (∀ x, x ∈ l → P x ↔ Q x) → filter P l = filter Q l.
Proof.
  induction l as [|a l IH]; intros HPQ; [done|].
  rewrite !filter_cons. rewrite IH by (intros x Hx; apply HPQ; by right).
  destruct (decide (P a)) as [Hp|Hp], (decide (Q a)) as [Hq|Hq]; try done.
  - destruct Hq. by apply (HPQ a); [left|].
  - destruct Hp. by apply (HPQ a); [left|].
Qed.

Lemma no_ties_NoDup env sortBy l :
  sortBy ∈ sort_keys → Forall (key_ok env sortBy) l → no_ties env sortBy l →
  NoDup (sort_value env sortBy <$> l).
Proof.
  intros Hk HP Hnt. apply NoDup_alt. intros i j v.
  rewrite !list_lookup_fmap.
  destruct (l !! i) as [a|] eqn:Ha; [|done]. destruct (l !! j) as [b|] eqn:Hb; [|done].
  simpl. intros [= Hva] [= Hvb].
  destruct (decide (i = j)) as [|Hne]; [done|].
  rewrite Forall_lookup in HP.
  pose proof (proj2 (tied_same_value env sortBy a b Hk (HP i a Ha) (HP j b Hb))) as Ht.
  rewrite (Hnt i j a b Hne Ha Hb) in Ht. by discriminate Ht; congruence.
Qed.

(** C7 (amended). For each of the five keys and both orders: the result
    is a new array, the array passed in keeps its elements, and the
    result is a permutation of the input. When the dates that a date key
    compares parse, the result is in order: text keys compare
    case-insensitively, date keys chronologically (a record without
    purchase date standing at 1900-01-01), the status by the rank
    expired < critical < warning < fresh, ascending or descending;
    records that compare equal keep their relative order in both results;
    and the descending result is the reversal of the ascending one when no
    two records compare equal. *)
Theorem sortIngredients_stable env ingredients sortBy h l :
  sortBy ∈ sort_keys →
  h !! ingredients = Some l →
  ∃ asc desc,
    sortIngredients env ingredients sortBy "asc" h = (length h, h ++ [asc]) ∧
    sortIngredients env ingredients sortBy "desc" h = (length h, h ++ [desc]) ∧
    ingredients ≠ length h ∧
    (h ++ [asc]) !! ingredients = Some l ∧
    (h ++ [desc]) !! ingredients = Some l ∧
    asc ≡ₚ l ∧ desc ≡ₚ l ∧
    (Forall (dates_parse sortBy) l →
     StronglySorted (λ a b, spec_before env sortBy b a = false) asc ∧
     StronglySorted (λ a b, spec_before env sortBy a b = false) desc ∧
     (∀ x, x ∈ l → filter (λ a, tied env sortBy x a = true) asc
                   = filter (λ a, tied env sortBy x a = true) l) ∧
     (∀ x, x ∈ l → filter (λ a, tied env sortBy x a = true) desc
                   = filter (λ a, tied env sortBy x a = true) l) ∧
     (no_ties env sortBy l → desc = reverse asc)).
Proof.
  intros Hk Hl.
  exists (Array_sort (sort_compare env sortBy "asc") l),
         (Array_sort (sort_compare env sortBy "desc") l).
  rewrite !sortIngredients_eq, Hl. simpl.
  split_and!; try done.
  - apply lookup_lt_Some in Hl. lia.
  - by apply lookup_app_l_Some.
  - by apply lookup_app_l_Some.
  - apply Array_sort_perm.
  - apply Array_sort_perm.
  - intros Hd.
    assert (Forall (key_ok env sortBy) l) as HP.
    { eapply Forall_impl; [exact Hd|]. intros a. by apply key_ok_of_dates. }
    assert (∀ order x, x ∈ Array_sort (sort_compare env sortBy order) l →
                       key_ok env sortBy x) as Hin.
    { intros order x Hx. rewrite Array_sort_perm in Hx.
      rewrite Forall_forall in HP. by apply HP. }
    assert (∀ order x,
              x ∈ l →
              filter (λ a, tied env sortBy x a = true)
                (Array_sort (sort_compare env sortBy order) l)
              = filter (λ a, tied env sortBy x a = true) l) as Hstable.
    { intros order x Hx.
      assert (key_ok env sortBy x) as Hkx by (rewrite Forall_forall in HP; by apply HP).
      destruct Hkx as (v & Hv & Hov).
      rewrite (filter_iff_in _ (λ a, sort_value env sortBy a = Some v)
                 (Array_sort _ l)).
      - rewrite Array_sort_stable. symmetry. apply filter_iff_in.
        intros a Ha. rewrite tied_same_value; [|done|by exists v|].
        + rewrite Hv. split; congruence.
        + rewrite Forall_forall in HP. by apply HP.
      - intros a Ha. rewrite tied_same_value; [|done|by exists v|by eapply Hin].
        rewrite Hv. split; congruence. }
    split_and!.
    + eapply StronglySorted_weaken; [|by apply (Array_sort_ordered env sortBy "asc")].
      intros x y Hx Hy Hc. apply ascending_spec; [done|].
      apply sort_compare_ascending; eauto.
    + eapply StronglySorted_weaken; [|by apply (Array_sort_ordered env sortBy "desc")].
      intros x y Hx Hy Hc. apply (ascending_spec env sortBy y x); [done|].
      apply sort_compare_descending; eauto.
    + apply Hstable.
    + apply Hstable.
    + intros Hnt. apply Array_sort_reverse; [done|]. by apply no_ties_NoDup.
Qed.

Lemma sortIngredients_stable_witness :
  ∃ asc desc,
    sortIngredients env_tokyo 0%nat "name" "asc" [[rice; milk; yogurt]]
    = (1%nat, [[rice; milk; yogurt]; asc]) ∧
    asc = [milk; rice; yogurt] ∧
    [[rice; milk; yogurt]; asc] !! 0%nat = Some [rice; milk; yogurt] ∧
    desc = reverse asc.
Proof.
  destruct (sortIngredients_stable env_tokyo 0%nat "name" [[rice; milk; yogurt]]
              [rice; milk; yogurt])
    as (asc & desc & Ha & _ & _ & Hin & _ & _ & _ & Hord).
  - set_solver.
  - reflexivity.
  - destruct Hord as (_ & _ & _ & _ & Hrev).
    { repeat constructor; by intros [=]. }
    exists asc, desc. split_and!.
    + exact Ha.
    + vm_compute in Ha. by injection Ha as <-.
    + exact Hin.
    + apply Hrev. intros [|[|[|i]]] [|[|[|j]]] a b Hij Hi Hj;
        simpl in Hi, Hj; simplify_eq; by vm_compute.
Defined.

(** C7 as stated fails for the reversal: two records whose names differ
    in case only compare equal; both orders leave them in the order of
    the input, so the descending result is not the reversal of the
    ascending one. *)
Lemma sortIngredients_reverse_counterexample :
  ∃ asc desc,
    sortIngredients env_tokyo 0%nat "name" "asc" [[milk; milk_again]]
    = (1%nat, [[milk; milk_again]; asc]) ∧
    sortIngredients env_tokyo 0%nat "name" "desc" [[milk; milk_again]]
    = (1%nat, [[milk; milk_again]; desc]) ∧
    tied env_tokyo "name" milk milk_again = true ∧
    asc = [milk; milk_again] ∧
    desc = [milk; milk_again] ∧
    desc ≠ reverse asc.
Proof.
  eexists _, _. split; [vm_compute; reflexivity|].
  split; [vm_compute; reflexivity|]. by repeat split.
Qed.

(** * Further properties *)

(** ** Dates and their strings *)

Lemma code_ascii_of_N k :
  0 ≤ k < 256 → JsString.code (ascii_of_N (Z.to_N k)) = k.
Proof.
  intros Hk. unfold JsString.code. rewrite N_ascii_embedding; lia.
Qed.

Lemma digit_of_digit_char n :
  JsDate.digit (JsDate.digit_char n) = Some (n mod 10).
Proof.
  unfold JsDate.digit, JsDate.digit_char.
  pose proof (Z.mod_pos_bound n 10 eq_refl) as Hm.
  rewrite code_ascii_of_N by lia.
  destruct (Z.leb_spec 48 (48 + n mod 10)), (Z.leb_spec (48 + n mod 10) 57);
    simpl; try lia. f_equal. lia.
Qed.

Lemma digit_char_not_T n : Ascii.eqb (JsDate.digit_char n) "T" = false.
Proof.
  apply Ascii.eqb_neq. intros E.
  pose proof (digit_of_digit_char n) as H. by rewrite E in H.
Qed.

Lemma date_string_chars y m d :
  date_string y m d
  = String (JsDate.digit_char (y / 10 / 10 / 10))
      (String (JsDate.digit_char (y / 10 / 10))
         (String (JsDate.digit_char (y / 10))
            (String (JsDate.digit_char y)
               (String "-"
                  (String (JsDate.digit_char (m / 10))
                     (String (JsDate.digit_char m)
                        (String "-"
                           (String (JsDate.digit_char (d / 10))
                              (String (JsDate.digit_char d) EmptyString))))))))).
Proof. reflexivity. Qed.

Lemma parse_date_string y m d :
  0 ≤ y ≤ 9999 → 1 ≤ m ≤ 12 → 1 ≤ d ≤ 31 →
  JsDate.parse (date_string y m d) = Fin (JsDate.days_from_civil y m d * JsDate.msPerDay).
Proof.
  intros Hy Hm Hd. rewrite date_string_chars. unfold JsDate.parse. cbv beta iota.
  unfold JsDate.digits4, JsDate.digits2. rewrite !digit_of_digit_char. cbn [mbind option_bind].
  replace (100 * (10 * (y / 10 / 10 / 10 mod 10) + y / 10 / 10 mod 10)
           + (10 * (y / 10 mod 10) + y mod 10)) with y
    by (Z.div_mod_to_equations; lia).
  replace (10 * (m / 10 mod 10) + m mod 10) with m by (Z.div_mod_to_equations; lia).
  replace (10 * (d / 10 mod 10) + d mod 10) with d by (Z.div_mod_to_equations; lia).
  destruct (Z.leb_spec 1 m), (Z.leb_spec m 12), (Z.leb_spec 1 d), (Z.leb_spec d 31);
    simpl; (done || lia).
Qed.

Lemma days_from_civil_inverse era yoe doy mp :
  0 ≤ yoe < 400 → 0 ≤ mp ≤ 11 →
  JsDate.days_from_civil
    (if (if mp <? 10 then mp + 3 else mp - 9) <=? 2
     then yoe + era * 400 + 1 else yoe + era * 400)
    (if mp <? 10 then mp + 3 else mp - 9)
    (doy - (153 * mp + 2) / 5 + 1)
  = era * 146097 + (yoe * 365 + yoe / 4 - yoe / 100 + doy) - 719468.
Proof.
  intros Hy Hm. unfold JsDate.days_from_civil.
  destruct (Z.ltb_spec mp 10).
  - destruct (Z.leb_spec (mp + 3) 2); [lia|].
    replace ((mp + 3 + 9) mod 12) with mp by (Z.div_mod_to_equations; lia).
    replace ((yoe + era * 400) / 400) with era by (Z.div_mod_to_equations; lia).
    replace (yoe + era * 400 - era * 400) with yoe by lia. lia.
  - destruct (Z.leb_spec (mp - 9) 2); [|lia].
    replace ((mp - 9 + 9) mod 12) with mp by (Z.div_mod_to_equations; lia).
    replace (yoe + era * 400 + 1 - 1) with (yoe + era * 400) by lia.
    replace ((yoe + era * 400) / 400) with era by (Z.div_mod_to_equations; lia).
    replace (yoe + era * 400 - era * 400) with yoe by lia. lia.
Qed.

Lemma day_of_era_bounds doe :
  0 ≤ doe < 146097 →
  0 ≤ (doe - doe / 1460 + doe / 36524 - doe / 146096) / 365 < 400 ∧
  0 ≤ doe - (365 * ((doe - doe / 1460 + doe / 36524 - doe / 146096) / 365)
             + (doe - doe / 1460 + doe / 36524 - doe / 146096) / 365 / 4
             - (doe - doe / 1460 + doe / 36524 - doe / 146096) / 365 / 100) ≤ 365.
Proof. intros H. Z.div_mod_to_equations. lia. Qed.

(** The two conversions between day numbers and calendar dates are
    inverse to each other, and the calendar date has a month from 1 to
    12 and a day from 1 to 31. *)
Lemma civil_from_days_spec z :
  ∃ y m d, JsDate.civil_from_days z = (y, m, d) ∧
           JsDate.days_from_civil y m d = z ∧ 1 ≤ m ≤ 12 ∧ 1 ≤ d ≤ 31 ∧
           (0 ≤ z < 2932897 → 1970 ≤ y ≤ 9999).
Proof.
  unfold JsDate.civil_from_days. cbv zeta.
  set (z' := z + 719468). set (era := z' / 146097). set (doe := z' - era * 146097).
  assert (0 ≤ doe < 146097) as Hdoe by (subst doe era; Z.div_mod_to_equations; lia).
  pose proof (day_of_era_bounds doe Hdoe) as [Hyoe Hdoy].
  set (yoe := (doe - doe / 1460 + doe / 36524 - doe / 146096) / 365) in *.
  set (doy := doe - (365 * yoe + yoe / 4 - yoe / 100)) in *.
  set (mp := (5 * doy + 2) / 153).
  assert (0 ≤ mp ≤ 11) as Hmp by (subst mp; Z.div_mod_to_equations; lia).
  eexists _, _, _. split; [reflexivity|]. split_and!.
  - rewrite days_from_civil_inverse by done. subst doy doe z'. lia.
  - destruct (Z.ltb_spec mp 10); lia.
  - destruct (Z.ltb_spec mp 10); lia.
  - subst mp. Z.div_mod_to_equations. lia.
  - subst mp. Z.div_mod_to_equations. lia.
  - intros Hz.
    assert (4 ≤ era ≤ 24) as Hera by (subst era z'; Z.div_mod_to_equations; lia).
    assert (719468 ≤ z' < 3652365) as Hz' by (subst z'; lia).
    assert (doe = z' - era * 146097) as Edoe by reflexivity.
    assert (doy = doe - (365 * yoe + yoe / 4 - yoe / 100)) as Edoy by reflexivity.
    assert (mp = (5 * doy + 2) / 153) as Emp by reflexivity.
    clearbody mp doy yoe doe era z'.
    destruct (Z.ltb_spec mp 10) as [Hlt|Hge].
    + destruct (Z.leb_spec (mp + 3) 2); [lia|].
      Z.div_mod_to_equations. lia.
    + destruct (Z.leb_spec (mp - 9) 2); [|lia].
      Z.div_mod_to_equations. lia.
Qed.

Lemma split_head_date_string y m d rest :
  JsString.split_head "T" (date_string y m d ++ String "T" rest) = date_string y m d.
Proof.
  rewrite date_string_chars.
  rewrite !JsStringFacts.append_cons, JsStringFacts.append_nil.
  cbn [JsString.split_head]. rewrite !digit_char_not_T. reflexivity.
Qed.

(** The UTC date string of an instant between 1970 and the end of the
    year 9999 parses back to the midnight that starts its UTC day. *)
Lemma utc_date_string_parses t :
  0 ≤ t < year_10000 →
  Date_new (JsString.split_head "T" (JsDate.toISOString t))
  = Fin (t / JsDate.msPerDay * JsDate.msPerDay).
Proof.
  intros Ht. unfold JsDate.toISOString, JsDate.isoDate.
  assert (0 ≤ t / JsDate.msPerDay < 2932897) as Hz.
  { unfold year_10000 in Ht. rewrite msPerDay_value. Z.div_mod_to_equations. lia. }
  destruct (civil_from_days_spec (t / JsDate.msPerDay))
    as (y & m & d & -> & Hinv & Hm & Hd & Hy).
  specialize (Hy Hz).
  destruct (Z.leb_spec 0 y); [|lia]. destruct (Z.leb_spec y 9999); [|lia].
  cbn [andb]. fold (date_string y m d).
  change ("T" ++ JsDate.isoTime t ++ "Z")%string
    with (String "T" (JsDate.isoTime t ++ "Z")%string).
  rewrite split_head_date_string. unfold Date_new.
  rewrite parse_date_string by lia. by rewrite Hinv.
Qed.

(** X1. Today's date string, as [getTodayString] builds it, is a valid
    date for [new Date]: it parses to the midnight that starts the UTC
    day of the clock. *)
Theorem getTodayString_parses env :
  0 ≤ clock env < year_10000 →
  Date_new (getTodayString env) = Fin (clock env / JsDate.msPerDay * JsDate.msPerDay).
Proof. intros H. unfold getTodayString. by apply utc_date_string_parses. Qed.

Lemma getTodayString_parses_witness :
  getTodayString env_tokyo = "2025-01-05"%string ∧
  Date_new (getTodayString env_tokyo) = Fin 1736035200000.
Proof.
  split; [reflexivity|].
  rewrite (getTodayString_parses env_tokyo); [reflexivity|].
  unfold year_10000. simpl. lia.
Defined.

Lemma calendar_date_bounds y m d :
  calendar_date y m d → 0 ≤ y ≤ 9999 ∧ 1 ≤ m ≤ 12 ∧ 1 ≤ d ≤ 31.
Proof.
  intros [Hy Hc].
  destruct (civil_from_days_spec (JsDate.days_from_civil y m d))
    as (y' & m' & d' & E & _ & Hm & Hd & _).
  rewrite Hc in E. by simplify_eq.
Qed.

(** X2. The days remaining in terms of calendar days, in a zone with a
    fixed offset: a date-only string of a calendar date denotes the start
    of the UTC day [D] of that date; at or east of UTC the result is [D]
    minus the local day of the clock, west of UTC it is one less. *)
Theorem calculateDaysRemaining_calendar env o y m d :
  fixed_offset env o →
  calendar_date y m d →
  (0 ≤ o < JsDate.msPerDay →
   calculateDaysRemaining env (date_string y m d)
   = Fin (JsDate.days_from_civil y m d - local_day env (clock env))) ∧
  (- JsDate.msPerDay ≤ o < 0 →
   calculateDaysRemaining env (date_string y m d)
   = Fin (JsDate.days_from_civil y m d - 1 - local_day env (clock env))).
Proof.
  intros Ho Hc. destruct (calendar_date_bounds y m d Hc) as (Hy & Hm & Hd).
  pose proof (parse_date_string y m d Hy Hm Hd) as Hs.
  rewrite (calculateDaysRemaining_valid env o _ _ Ho Hs).
  rewrite (local_day_shift env o) by done.
  rewrite msPerDay_value. split; intros Hr; do 2 f_equal.
  - rewrite Z.div_small; lia.
  - assert (o / 86400000 = -1) by (Z.div_mod_to_equations; lia). lia.
Qed.

Lemma calculateDaysRemaining_calendar_witness :
  date_string 2025 1 8 = "2025-01-08"%string ∧
  calculateDaysRemaining env_tokyo "2025-01-08" = Fin (20096 - 20093) ∧
  calculateDaysRemaining env_bogota "2025-01-08" = Fin (20096 - 1 - 20093).
Proof.
  destruct (calculateDaysRemaining_calendar env_tokyo 32400000 2025 1 8)
    as [Heast _]; [by intros t b | by split; [lia|vm_compute] |].
  destruct (calculateDaysRemaining_calendar env_bogota (-18000000) 2025 1 8)
    as [_ Hwest]; [by intros t b | by split; [lia|vm_compute] |].
  split_and!; [reflexivity| |].
  - change "2025-01-08"%string with (date_string 2025 1 8).
    rewrite Heast; [reflexivity|]. vm_compute. split; [discriminate|reflexivity].
  - change "2025-01-08"%string with (date_string 2025 1 8).
    rewrite Hwest; [reflexivity|]. vm_compute. split; [discriminate|reflexivity].
Defined.

Lemma fixed_offset_monotone env o : fixed_offset env o → midnights_monotone env.
Proof.
  intros Ho t u Htu. rewrite !(local_midnight_fixed env o), !(local_day_fixed env o) by done.
  rewrite msPerDay_value. Z.div_mod_to_equations. lia.
Qed.

(** X3. The status never gets worse when the expiration date gets
    later: for two records whose expiration dates parse, the later date
    has the same or a higher rank in expired < critical < warning < fresh.
    This holds in every zone whose local midnights do not go back in
    time, as those of every zone with a fixed offset. *)
Theorem getExpirationStatus_monotone env a b ta tb :
  midnights_monotone env →
  Date_new (expirationDate a) = Fin ta →
  Date_new (expirationDate b) = Fin tb →
  ta ≤ tb →
  statusOrder (getExpirationStatus env a) ≤ statusOrder (getExpirationStatus env b).
Proof.
  intros Hmono Ha Hb Hab. unfold getExpirationStatus.
  rewrite (calculateDaysRemaining_ceil env _ _ Ha).
  rewrite (calculateDaysRemaining_ceil env _ _ Hb).
  pose proof (Hmono ta tb Hab) as Hm.
  set (ma := local_midnight env ta) in *. set (mb := local_midnight env tb) in *.
  set (m0 := local_midnight env (clock env)).
  assert (- (- (ma - m0) / 86400000) ≤ - (- (mb - m0) / 86400000)) as Hd
    by (Z.div_mod_to_equations; lia).
  unfold num_ltZ, num_leZ, num_test.
  repeat match goal with
         | |- context [?x <? ?y] => destruct (Z.ltb_spec x y)
         | |- context [?x <=? ?y] => destruct (Z.leb_spec x y)
         end; simpl; lia.
Qed.

Lemma getExpirationStatus_monotone_witness :
  statusOrder (getExpirationStatus env_tokyo yogurt)
  ≤ statusOrder (getExpirationStatus env_tokyo rice).
Proof.
  apply (getExpirationStatus_monotone env_tokyo yogurt rice 1735948800000 1764547200000);
    [|reflexivity | reflexivity | lia].
  intros t u Htu. unfold local_midnight, local_day. simpl.
  rewrite msPerDay_value. Z.div_mod_to_equations. lia.
Defined.

Lemma setDate_plus_fixed env o t k :
  fixed_offset env o → setDate_plus env t k = t + k * JsDate.msPerDay.
Proof. intros Ho. unfold setDate_plus. rewrite !Ho. lia. Qed.

(** X4. In a zone with a fixed offset, a date string built by
    [getDateString k] is [k] days away for [calculateDaysRemaining], or
    [k - 1]: it is [k] exactly when the local date of the clock is its UTC
    date (zones at or east of UTC), respectively the day before its UTC
    date (zones west of UTC). *)
Theorem getDateString_days_remaining env o k :
  fixed_offset env o →
  0 ≤ clock env + k * JsDate.msPerDay < year_10000 →
  - JsDate.msPerDay ≤ o < JsDate.msPerDay →
  ∃ r, calculateDaysRemaining env (getDateString env k) = Fin r ∧
       k - 1 ≤ r ≤ k ∧
       (0 ≤ o →
        (r = k ↔ local_day env (clock env) = clock env / JsDate.msPerDay)) ∧
       (o < 0 →
        (r = k ↔ local_day env (clock env) = clock env / JsDate.msPerDay - 1)).
Proof.
  intros Hfix Hr Ho. unfold getDateString. cbv zeta.
  rewrite (setDate_plus_fixed env o) by done.
  pose proof (utc_date_string_parses _ Hr) as Hp.
  rewrite (calculateDaysRemaining_valid env o _ _ Hfix Hp).
  eexists. split; [reflexivity|].
  rewrite (local_day_shift env o), (local_day_fixed env o) by done.
  rewrite msPerDay_value in *.
  split_and!; intros; try split; intros; Z.div_mod_to_equations; lia.
Qed.

Lemma getDateString_days_remaining_witness :
  getDateString env_tokyo 3 = "2025-01-08"%string ∧
  calculateDaysRemaining env_tokyo (getDateString env_tokyo 3) = Fin 3.
Proof.
  split; [reflexivity|].
  destruct (getDateString_days_remaining env_tokyo 32400000 3)
    as (r & Hr & _ & Heast & _).
  - by intros t b.
  - vm_compute. split; [discriminate|reflexivity].
  - vm_compute. split; [discriminate|reflexivity].
  - rewrite Hr. f_equal. apply Heast; [vm_compute; discriminate|reflexivity].
Defined.

(** Where the offset changes within the [k] days, [setDate] moves the
    local date and the midnights are no longer whole days apart: in
    Berlin on 2025-10-25, the day before the clocks go back, the date
    built for 7 days ahead is counted as 8 days away. *)
Example getDateString_across_offset_change :
  getDateString env_berlin_october 7 = "2025-11-01"%string ∧
  calculateDaysRemaining env_berlin_october (getDateString env_berlin_october 7) = Fin 8.
Proof. split; reflexivity. Qed.

(** ** Identifiers and creation *)

Lemma hex_digit_is_hex v : 0 ≤ v < 16 → is_hex (hex_digit v) = true.
Proof.
  intros Hv. unfold is_hex, hex_digit.
  destruct (Z.ltb_spec v 10); rewrite code_ascii_of_N by lia;
    rewrite orb_true_iff, !andb_true_iff, !Z.leb_le; lia.
Qed.

Lemma variant_nibble v :
  0 ≤ v < 16 →
  hex_digit (Z.lor (Z.land v 3) 8) ∈ ["8"; "9"; "a"; "b"]%char.
Proof.
  intros Hv.
  assert (v = 0 ∨ v = 1 ∨ v = 2 ∨ v = 3 ∨ v = 4 ∨ v = 5 ∨ v = 6 ∨ v = 7 ∨
          v = 8 ∨ v = 9 ∨ v = 10 ∨ v = 11 ∨ v = 12 ∨ v = 13 ∨ v = 14 ∨ v = 15)
    as Hcases by lia.
  repeat destruct Hcases as [->|Hcases]; [..|subst v];
    apply list_elem_of_In; vm_compute; repeat (first [left; reflexivity | right]).
Qed.

Lemma generateUUID_chars env :
  ∃ r : nat → Z,
    (∀ n, 0 ≤ r n < 16) ∧
    generateUUID env =
    String (hex_digit (r 0%nat)) (String (hex_digit (r 1%nat)) (String
    (hex_digit (r 2%nat)) (String (hex_digit (r 3%nat)) (String (hex_digit
    (r 4%nat)) (String (hex_digit (r 5%nat)) (String (hex_digit (r 6%nat))
    (String (hex_digit (r 7%nat)) (String "-" (String (hex_digit (r 8%nat))
    (String (hex_digit (r 9%nat)) (String (hex_digit (r 10%nat)) (String
    (hex_digit (r 11%nat)) (String "-" (String "4" (String (hex_digit (r
    12%nat)) (String (hex_digit (r 13%nat)) (String (hex_digit (r 14%nat))
    (String "-" (String (hex_digit (Z.lor (Z.land (r 15%nat) 3) 8)) (String
    (hex_digit (r 16%nat)) (String (hex_digit (r 17%nat)) (String (hex_digit
    (r 18%nat)) (String "-" (String (hex_digit (r 19%nat)) (String
    (hex_digit (r 20%nat)) (String (hex_digit (r 21%nat)) (String (hex_digit
    (r 22%nat)) (String (hex_digit (r 23%nat)) (String (hex_digit (r
    24%nat)) (String (hex_digit (r 25%nat)) (String (hex_digit (r 26%nat))
    (String (hex_digit (r 27%nat)) (String (hex_digit (r 28%nat)) (String
    (hex_digit (r 29%nat)) (String (hex_digit (r 30%nat))
    EmptyString))))))))))))))))))))))))))))))))))).
Proof.
  exists (λ n, random env n mod 16). split; [|reflexivity].
  intros n. by apply Z.mod_pos_bound.
Qed.

(** X5. An identifier from [generateUUID] has the shape of a version 4
    UUID whatever [Math.random] returns: 36 characters, hyphens at the
    positions 8, 13, 18 and 23, the digit 4 at position 14, one of
    8, 9, a, b at position 19, and lower-case hexadecimal digits
    everywhere else. *)
Theorem generateUUID_shape env :
  String.length (generateUUID env) = 36%nat ∧
  String.get 8 (generateUUID env) = Some "-"%char ∧
  String.get 13 (generateUUID env) = Some "-"%char ∧
  String.get 18 (generateUUID env) = Some "-"%char ∧
  String.get 23 (generateUUID env) = Some "-"%char ∧
  String.get 14 (generateUUID env) = Some "4"%char ∧
  (∃ c, String.get 19 (generateUUID env) = Some c ∧ c ∈ ["8"; "9"; "a"; "b"]%char) ∧
  (∀ i c, String.get i (generateUUID env) = Some c →
          i ∉ [8; 13; 18; 23]%nat → is_hex c = true).
Proof.
  destruct (generateUUID_chars env) as (r & Hr & ->).
  split_and!; try reflexivity.
  - eexists. split; [reflexivity|]. apply variant_nibble, Hr.
  - intros i c Hget Hi.
    do 36 (destruct i as [|i];
           [ simpl in Hget; injection Hget as <-;
             first [ by apply hex_digit_is_hex
                   | reflexivity
                   | exfalso; apply Hi; apply list_elem_of_In; simpl; tauto
                   | pose proof (variant_nibble (r 15%nat) (Hr _)) as Hv;
                     rewrite !elem_of_cons, elem_of_nil in Hv;
                     destruct Hv as [->|[->|[->|[->|[]]]]]; reflexivity ]
           | ]).
    discriminate.
Qed.

Lemma or_else_empty s : JsString.or_else (Some s) "" = s.
Proof. by destruct s. Qed.

Lemma or_else_truthy o d :
  JsString.truthy d = true → JsString.truthy (JsString.or_else o d) = true.
Proof. destruct o as [[|c s]|]; simpl; auto. Qed.

Lemma or_else_Some_truthy s d :
  JsString.truthy s = true → JsString.or_else (Some s) d = s.
Proof. by destruct s. Qed.

Lemma getTodayString_nonempty env : JsString.truthy (getTodayString env) = true.
Proof.
  unfold getTodayString, JsDate.toISOString, JsDate.isoDate.
  destruct (JsDate.civil_from_days _) as [[y m] d].
  destruct ((0 <=? y) && (y <=? 9999)).
  - cbn [JsDate.pad]. rewrite !JsStringFacts.append_cons.
    cbn [JsString.split_head]. by rewrite digit_char_not_T.
  - rewrite !JsStringFacts.append_cons. cbn [JsString.split_head].
    by destruct (y <? 0).
Qed.

(** X6. Creating a record from the object of a created record (as an
    import of exported data does) keeps the name, the category, both
    dates, the quantity, the location and the notes, and replaces the
    identifier and the two time stamps by new ones. *)
Theorem createIngredient_again env env' data :
  name (createIngredient env' (Ingredient_obj (createIngredient env data)))
  = name (createIngredient env data) ∧
  category (createIngredient env' (Ingredient_obj (createIngredient env data)))
  = category (createIngredient env data) ∧
  purchaseDate (createIngredient env' (Ingredient_obj (createIngredient env data)))
  = purchaseDate (createIngredient env data) ∧
  expirationDate (createIngredient env' (Ingredient_obj (createIngredient env data)))
  = expirationDate (createIngredient env data) ∧
  quantity (createIngredient env' (Ingredient_obj (createIngredient env data)))
  = quantity (createIngredient env data) ∧
  location (createIngredient env' (Ingredient_obj (createIngredient env data)))
  = location (createIngredient env data) ∧
  notes (createIngredient env' (Ingredient_obj (createIngredient env data)))
  = notes (createIngredient env data) ∧
  id (createIngredient env' (Ingredient_obj (createIngredient env data)))
  = generateUUID env' ∧
  createdAt (createIngredient env' (Ingredient_obj (createIngredient env data)))
  = JsDate.toISOString (clock env') ∧
  updatedAt (createIngredient env' (Ingredient_obj (createIngredient env data)))
  = JsDate.toISOString (clock env').
Proof.
  set (r := createIngredient env data).
  assert (Ingredient_obj r !! "name" = Some (name r)) as Hn by reflexivity.
  assert (Ingredient_obj r !! "category" = Some (category r)) as Hc by reflexivity.
  assert (Ingredient_obj r !! "purchaseDate" = Some (purchaseDate r)) as Hp
    by reflexivity.
  assert (Ingredient_obj r !! "expirationDate" = Some (expirationDate r)) as He
    by reflexivity.
  assert (Ingredient_obj r !! "quantity" = Some (quantity r)) as Hq by reflexivity.
  assert (Ingredient_obj r !! "location" = Some (location r)) as Hl by reflexivity.
  assert (Ingredient_obj r !! "notes" = Some (notes r)) as Ho by reflexivity.
  unfold createIngredient.
  cbn [id name category purchaseDate expirationDate quantity location notes
       createdAt updatedAt].
  rewrite Hn, Hc, Hp, He, Hq, Hl, Ho, !or_else_empty.
  subst r. cbn [createIngredient name category purchaseDate expirationDate
                quantity location notes].
  rewrite !JsStringFacts.trim_idem.
  split_and!; try reflexivity.
  apply or_else_Some_truthy, or_else_truthy, getTodayString_nonempty.
Qed.

(** X7. [validateIngredient] looks at the name, the category and the
    two dates only: setting or removing any other property changes
    neither the verdict nor the errors. *)
Theorem validateIngredient_other_fields data k v :
  k ∉ ["name"; "category"; "expirationDate"; "purchaseDate"]%string →
  validateIngredient (<[k := v]> data) = validateIngredient data ∧
  validateIngredient (delete k data) = validateIngredient data.
Proof.
  rewrite !not_elem_of_cons. intros (H1 & H2 & H3 & H4 & _).
  unfold validateIngredient, validate_name, validate_category,
    validate_expirationDate, validate_purchaseDate.
  by rewrite !lookup_insert_ne, !lookup_delete_ne by done.
Qed.

Lemma validateIngredient_other_fields_witness :
  validateIngredient (<["notes" := "from the market"]> form_milk_2025)
  = validateIngredient form_milk_2025.
Proof.
  apply (validateIngredient_other_fields form_milk_2025 "notes" "from the market").
  apply (bool_decide_unpack _). by vm_compute.
Defined.

(** ** Sorting: edge cases *)

Lemma Array_sort_zero {A} (cmp : A → A → Z) l :
  (∀ x y, cmp x y = 0) → Array_sort cmp l = l.
Proof.
  intros H. induction l as [|x l IH]; simpl; [done|].
  rewrite IH. destruct l as [|y l]; simpl; [done|]. by rewrite H.
Qed.

Lemma Array_sort_sorted_id {A} (cmp : A → A → Z) l :
  StronglySorted (λ a b, cmp a b ≤ 0) l → Array_sort cmp l = l.
Proof.
  induction 1 as [|x l Hs IH Hx]; simpl; [done|].
  rewrite IH. destruct l as [|y l]; simpl; [done|].
  apply Forall_cons in Hx as [Hxy _].
  by destruct (Z.leb_spec (cmp x y) 0); [|lia].
Qed.

Lemma sort_value_unknown env sortBy a :
  sortBy ∉ sort_keys → sort_value env sortBy a = None.
Proof.
  unfold sort_keys. rewrite !not_elem_of_cons. intros (H1 & H2 & H3 & H4 & H5 & _).
  unfold sort_value.
  rewrite <- String.eqb_neq in H1, H2, H3, H4, H5. by rewrite H1, H2, H3, H4, H5.
Qed.

(** X8. With a sort key that is none of the five, the comparator answers
    0 for every pair and the copy that is returned has the order of the
    input, whatever the order argument. *)
Theorem sortIngredients_unknown_key env ingredients sortBy order h l :
  sortBy ∉ sort_keys →
  h !! ingredients = Some l →
  sortIngredients env ingredients sortBy order h = (length h, h ++ [l]).
Proof.
  intros Hk Hl. rewrite sortIngredients_eq, Hl. simpl. do 3 f_equal.
  apply Array_sort_zero. intros x y. unfold sort_compare.
  by rewrite sort_value_unknown.
Qed.

Lemma sortIngredients_unknown_key_witness :
  sortIngredients env_tokyo 0%nat "price" "desc" [[rice; milk; yogurt]]
  = (1%nat, [[rice; milk; yogurt]; [rice; milk; yogurt]]).
Proof.
  apply (sortIngredients_unknown_key env_tokyo 0%nat "price" "desc"
           [[rice; milk; yogurt]] [rice; milk; yogurt]); [|reflexivity].
  apply (bool_decide_unpack _). by vm_compute.
Defined.

(** X9. Sorting is idempotent: sorting the array that [sortIngredients]
    returned, by the same key and order, returns an array with the same
    elements in the same order. *)
Theorem sortIngredients_idempotent env ingredients sortBy order h l :
  sortBy ∈ sort_keys →
  h !! ingredients = Some l →
  Forall (dates_parse sortBy) l →
  ∃ sorted,
    sortIngredients env ingredients sortBy order h = (length h, h ++ [sorted]) ∧
    sortIngredients env (length h) sortBy order (h ++ [sorted])
    = (S (length h), (h ++ [sorted]) ++ [sorted]).
Proof.
  intros Hk Hl Hd.
  assert (Forall (key_ok env sortBy) l) as HP.
  { eapply Forall_impl; [exact Hd|]. intros a. by apply key_ok_of_dates. }
  exists (Array_sort (sort_compare env sortBy order) l).
  rewrite !sortIngredients_eq, Hl. split; [done|].
  rewrite list_lookup_middle by done. rewrite length_app. simpl.
  rewrite Nat.add_1_r. do 3 f_equal.
  by apply Array_sort_sorted_id, Array_sort_ordered.
Qed.

Lemma sortIngredients_idempotent_witness :
  ∃ sorted,
    sortIngredients env_tokyo 0%nat "expiration" "asc" [[rice; milk; yogurt]]
    = (1%nat, [[rice; milk; yogurt]; sorted]) ∧
    sorted = [yogurt; milk; rice] ∧
    sortIngredients env_tokyo 1%nat "expiration" "asc" [[rice; milk; yogurt]; sorted]
    = (2%nat, [[rice; milk; yogurt]; sorted; sorted]).
Proof.
  destruct (sortIngredients_idempotent env_tokyo 0%nat "expiration" "asc"
              [[rice; milk; yogurt]] [rice; milk; yogurt]) as (sorted & H1 & H2).
  - apply (bool_decide_unpack _). by vm_compute.
  - reflexivity.
  - repeat constructor; try (by intros [=]); intros _; by vm_compute.
  - exists sorted. split_and!; [exact H1| |exact H2].
    vm_compute in H1. by injection H1 as <-.
Defined.

(** ** Case and white space *)

Lemma lower_char_idem c :
  JsString.lower_char (JsString.lower_char c) = JsString.lower_char c.
Proof. destruct c as [[] [] [] [] [] [] [] []]; reflexivity. Qed.

Lemma is_space_lower_char c :
  JsString.is_space (JsString.lower_char c) = JsString.is_space c.
Proof. destruct c as [[] [] [] [] [] [] [] []]; reflexivity. Qed.

Lemma toLowerCase_idem s :
  JsString.toLowerCase (JsString.toLowerCase s) = JsString.toLowerCase s.
Proof. induction s as [|c s IH]; simpl; [done|]. by rewrite lower_char_idem, IH. Qed.

Lemma toLowerCase_truthy s :
  JsString.truthy (JsString.toLowerCase s) = JsString.truthy s.
Proof. by destruct s. Qed.

Lemma toLowerCase_trimStart s :
  JsString.toLowerCase (JsString.trimStart s)
  = JsString.trimStart (JsString.toLowerCase s).
Proof.
  induction s as [|c s IH]; simpl; [done|].
  rewrite is_space_lower_char. by destruct (JsString.is_space c).
Qed.

Lemma toLowerCase_trimEnd s :
  JsString.toLowerCase (JsString.trimEnd s)
  = JsString.trimEnd (JsString.toLowerCase s).
Proof.
  induction s as [|c s IH]; simpl; [done|].
  rewrite <- IH, is_space_lower_char.
  destruct (JsString.trimEnd s) as [|d r]; simpl; [|done].
  by destruct (JsString.is_space c).
Qed.

Lemma toLowerCase_trim s :
  JsString.toLowerCase (JsString.trim s) = JsString.trim (JsString.toLowerCase s).
Proof.
  unfold JsString.trim. by rewrite toLowerCase_trimEnd, toLowerCase_trimStart.
Qed.

Lemma includes_empty s : JsString.includes s "" = true.
Proof. by destruct s. Qed.

(** ** Filtering as one test *)

Lemma filter_and {A} (p q : A → bool) l :
  List.filter q (List.filter p l) = List.filter (λ x, p x && q x) l.
Proof.
  induction l as [|x l IH]; simpl; [done|].
  destruct (p x); simpl; [|done]. destruct (q x); by rewrite IH.
Qed.

Lemma filter_true {A} (p : A → bool) l :
  (∀ x, In x l → p x = true) → List.filter p l = l.
Proof.
  induction l as [|x l IH]; simpl; intros H; [done|].
  rewrite (H x) by auto. f_equal. apply IH. auto.
Qed.

Lemma filter_sublist {A} (p : A → bool) l : sublist (List.filter p l) l.
Proof.
  induction l as [|x l IH]; simpl; [constructor|].
  destruct (p x); by constructor.
Qed.

Lemma filter_nil_iff {A} (p : A → bool) l :
  List.filter p l = [] ↔ ∀ x, In x l → p x = false.
Proof.
  induction l as [|x l IH]; simpl.
  - split; [by intros _ x []|done].
  - destruct (p x) eqn:E.
    + split; [done|]. intros H. specialize (H x (or_introl eq_refl)). congruence.
    + rewrite IH. split.
      * intros H y [<-|Hy]; auto.
      * intros H y Hy. apply H. auto.
Qed.

Lemma optional_stage_filter o test l :
  optional_stage o test l = List.filter (optional o test) l.
Proof.
  unfold optional_stage, optional. destruct (JsString.truthy_opt o); simpl; [done|].
  symmetry. by apply filter_true.
Qed.

Lemma filterIngredients_as_filter env l filters :
  filterIngredients env l filters = List.filter (passes env filters) l.
Proof.
  change (filterIngredients env l filters) with
    (optional_stage (filters !! "endDate")
       (λ d ing, num_leZ (Date_new (expirationDate ing)) (Date_new d))
       (optional_stage (filters !! "startDate")
          (λ d ing, num_geZ (Date_new (expirationDate ing)) (Date_new d))
          (optional_stage (filters !! "status") (status_test env)
             (optional_stage (filters !! "category") category_test
                (optional_stage (filters !! "search") search_test l))))).
  rewrite !optional_stage_filter, !filter_and.
  apply List.filter_ext. intros x. unfold passes. by rewrite !andb_assoc.
Qed.

Lemma searchIngredients_as_filter l q :
  JsString.truthy q = true →
  searchIngredients l q = List.filter (search_test_location q) l.
Proof.
  intros Hq. unfold searchIngredients. rewrite Hq. simpl.
  destruct (Z.eqb_spec (JsString.len (JsString.trim q)) 0) as [E|E]; [|done].
  symmetry. apply filter_true. intros x _. unfold search_test_location.
  apply JsStringFacts.len_0 in E.
  by rewrite <- toLowerCase_trim, E, includes_empty.
Qed.

Lemma applyAllFilters_as_filter env l filters :
  applyAllFilters env l filters = List.filter (passes_pipeline env filters) l.
Proof.
  assert (∀ l o, (if JsString.truthy_opt o then searchIngredients l (default "" o)
                  else l) = optional_stage o search_test_location l) as Hs.
  { intros l' [[|c s]|]; try done. unfold optional_stage. simpl.
    by rewrite searchIngredients_as_filter. }
  assert (∀ l o, (if JsString.truthy_opt o then filterByCategory l (default "" o)
                  else l) = optional_stage o category_test l) as Hc.
  { by intros l' [[|c s]|]. }
  assert (∀ l o, (if JsString.truthy_opt o then filterByStatus env l (default "" o)
                  else l) = optional_stage o (status_test env) l) as Ht.
  { by intros l' [[|c s]|]. }
  unfold applyAllFilters. cbv zeta.
  rewrite Hs, Hc, Ht, !optional_stage_filter, !filter_and.
  apply List.filter_ext. intros x. unfold passes_pipeline. by rewrite !andb_assoc.
Qed.

(** X10. [filterIngredients] only removes records and keeps the order
    of the rest; filtering a second time with the same criteria changes
    nothing; and two sets of criteria give the same result in either
    order of application. *)
Theorem filterIngredients_composes env l f g :
  sublist (filterIngredients env l f) l ∧
  filterIngredients env (filterIngredients env l f) f = filterIngredients env l f ∧
  filterIngredients env (filterIngredients env l f) g
  = filterIngredients env (filterIngredients env l g) f.
Proof.
  rewrite !filterIngredients_as_filter. split_and!.
  - apply filter_sublist.
  - rewrite filter_and. apply List.filter_ext. intros x. by destruct (passes env f x).
  - rewrite !filter_and. apply List.filter_ext. intros x. apply andb_comm.
Qed.

Lemma passes_false_start env filters q ing :
  active filters "startDate" q →
  num_geZ (Date_new (expirationDate ing)) (Date_new q) = false →
  passes env filters ing = false.
Proof.
  intros [Hq Hne] Hc. unfold passes, optional. rewrite Hq. simpl.
  destruct q; [done|]. simpl. rewrite Hc. by rewrite !andb_false_r.
Qed.

Lemma passes_false_end env filters q ing :
  active filters "endDate" q →
  num_leZ (Date_new (expirationDate ing)) (Date_new q) = false →
  passes env filters ing = false.
Proof.
  intros [Hq Hne] Hc. unfold passes, optional. rewrite Hq. simpl.
  destruct q; [done|]. simpl. rewrite Hc. by rewrite !andb_false_r.
Qed.

(** X11. A date bound that cannot be used removes records rather than
    being ignored: when the start or the end date of the criteria does
    not parse, the result is empty; and whenever a date bound is active,
    every record whose expiration date does not parse is dropped. *)
Theorem filterIngredients_unusable_dates env l filters q :
  active filters "startDate" q ∨ active filters "endDate" q →
  (Date_new q = NaN → filterIngredients env l filters = []) ∧
  (∀ ing, Date_new (expirationDate ing) = NaN →
          ¬ In ing (filterIngredients env l filters)).
Proof.
  intros Hq. rewrite filterIngredients_as_filter. split.
  - intros Hn. apply filter_nil_iff. intros x _.
    destruct Hq as [Hq|Hq].
    + apply (passes_false_start env filters q x Hq). rewrite Hn.
      unfold num_geZ, num_test. by destruct (Date_new (expirationDate x)).
    + apply (passes_false_end env filters q x Hq). rewrite Hn.
      unfold num_leZ, num_test. by destruct (Date_new (expirationDate x)).
  - intros ing Hn [_ Hp]%filter_In.
    destruct Hq as [Hq|Hq].
    + rewrite (passes_false_start env filters q ing Hq) in Hp; [done|]. by rewrite Hn.
    + rewrite (passes_false_end env filters q ing Hq) in Hp; [done|]. by rewrite Hn.
Qed.

Lemma filterIngredients_unusable_dates_witness :
  filterIngredients env_tokyo [milk; rice] {["startDate" := "soon"]} = [] ∧
  ¬ In (with_dates "2025-01-01" "next week" milk)
      (filterIngredients env_tokyo [with_dates "2025-01-01" "next week" milk; rice]
         {["endDate" := "2026-01-01"]}).
Proof.
  destruct (filterIngredients_unusable_dates env_tokyo [milk; rice]
              {["startDate" := "soon"]} "soon") as [H1 _]; [by left|].
  destruct (filterIngredients_unusable_dates env_tokyo
              [with_dates "2025-01-01" "next week" milk; rice]
              {["endDate" := "2026-01-01"]} "2026-01-01") as [_ H2]; [by right|].
  split; [by apply H1|by apply H2].
Defined.

(** X12. A status criterion that is not one of the four status names
    matches no record: the result is empty. *)
Theorem filterIngredients_unknown_status env l filters s :
  active filters "status" s →
  s ∉ ["expired"; "critical"; "warning"; "fresh"]%string →
  filterIngredients env l filters = [].
Proof.
  intros [Hs Hne] Hnot. rewrite filterIngredients_as_filter.
  apply filter_nil_iff. intros x _. unfold passes, optional. rewrite Hs.
  destruct s as [|c s]; [done|]. cbn [JsString.truthy_opt JsString.truthy negb orb].
  assert (status_test env (String c s) x = false) as Ht.
  { unfold status_test. apply String.eqb_neq. intros E. apply Hnot. rewrite <- E.
    destruct (getExpirationStatus env x); simpl; rewrite !elem_of_cons; tauto. }
  change (default "" (Some (String c s))) with (String c s).
  rewrite Ht. by rewrite !andb_false_r.
Qed.

Lemma filterIngredients_unknown_status_witness :
  filterIngredients env_tokyo [milk; yogurt; rice] (filters_status "Expired") = [].
Proof.
  apply (filterIngredients_unknown_status env_tokyo _ _ "Expired").
  - by split.
  - apply (bool_decide_unpack _). by vm_compute.
Defined.

(** X13. The two filter pipelines: every record that [filterIngredients]
    keeps is kept by [applyAllFilters] of search.js for the same
    criteria; and the two return the same list when no date bound is
    active and either no search is active or no record has a location. *)
Theorem applyAllFilters_keeps_more env l filters :
  (∀ ing, In ing (filterIngredients env l filters) →
          In ing (applyAllFilters env l filters)) ∧
  (JsString.truthy_opt (filters !! "startDate") = false →
   JsString.truthy_opt (filters !! "endDate") = false →
   JsString.truthy_opt (filters !! "search") = false ∨
   Forall (λ ing, location ing = EmptyString) l →
   applyAllFilters env l filters = filterIngredients env l filters).
Proof.
  rewrite filterIngredients_as_filter, applyAllFilters_as_filter. split.
  - intros ing. rewrite !filter_In. intros [Hin Hp]. split; [done|].
    unfold passes in Hp. unfold passes_pipeline.
    destruct (optional (filters !! "search") search_test ing) eqn:H1; [|done].
    destruct (optional (filters !! "category") category_test ing); [|done].
    destruct (optional (filters !! "status") (status_test env) ing); [|done].
    rewrite !andb_true_r. clear Hp.
    unfold optional, search_test, search_test_location in *.
    destruct (JsString.truthy_opt (filters !! "search")); simpl in *; [|done].
    by rewrite H1.
  - intros Hs He Hq. apply List.filter_ext_in. intros x Hx.
    unfold passes, passes_pipeline, optional. rewrite Hs, He. simpl.
    rewrite !andb_true_r. do 2 f_equal.
    destruct Hq as [Hq|Hq]; [by rewrite Hq|].
    rewrite Forall_forall in Hq. apply list_elem_of_In in Hx.
    unfold search_test, search_test_location. rewrite (Hq x Hx). simpl.
    by rewrite orb_false_r.
Qed.

Lemma applyAllFilters_keeps_more_witness :
  applyAllFilters env_tokyo [milk; yogurt; rice] (filters_status "fresh")
  = filterIngredients env_tokyo [milk; yogurt; rice] (filters_status "fresh") ∧
  filterIngredients env_tokyo [milk; yogurt; rice] (filters_status "fresh") = [rice].
Proof.
  split; [|reflexivity].
  destruct (applyAllFilters_keeps_more env_tokyo [milk; yogurt; rice]
              (filters_status "fresh")) as [_ H].
  apply H; [reflexivity | reflexivity | by left].
Defined.

(** X14. [searchIngredients] does not depend on the case of the query
    nor on white space around it; a query that is blank after trimming
    returns the list as it is; and searching the result again with the
    same query changes nothing. *)
Theorem searchIngredients_query l q :
  searchIngredients l (JsString.toLowerCase q) = searchIngredients l q ∧
  searchIngredients l (JsString.trim q) = searchIngredients l q ∧
  (JsString.trim q = EmptyString → searchIngredients l q = l) ∧
  searchIngredients (searchIngredients l q) q = searchIngredients l q.
Proof.
  assert (JsString.trim q = EmptyString → ∀ l', searchIngredients l' q = l') as Hblank.
  { intros E l'. unfold searchIngredients. rewrite E. simpl. by rewrite orb_true_r. }
  split_and!.
  - destruct (JsString.truthy q) eqn:Hq.
    + rewrite !searchIngredients_as_filter by (by rewrite ?toLowerCase_truthy).
      apply List.filter_ext. intros x. unfold search_test_location.
      by rewrite toLowerCase_idem.
    + by destruct q.
  - destruct (JsString.trim q) as [|c s] eqn:E.
    + by rewrite (Hblank eq_refl).
    + assert (JsString.truthy q = true) as Hq by (by destruct q).
      rewrite <- E. rewrite !searchIngredients_as_filter by (by rewrite ?E).
      apply List.filter_ext. intros x. unfold search_test_location.
      by rewrite toLowerCase_trim, JsStringFacts.trim_idem.
  - intros E. by apply Hblank.
  - destruct (JsString.truthy q) eqn:Hq.
    + rewrite !searchIngredients_as_filter by done. rewrite filter_and.
      apply List.filter_ext. intros x. by destruct (search_test_location q x).
    + by destruct q.
Qed.

Lemma searchIngredients_query_witness :
  searchIngredients [milk; yogurt; rice] "  " = [milk; yogurt; rice] ∧
  searchIngredients [milk; yogurt; rice] " FRIDGE " = [milk; yogurt].
Proof.
  destruct (searchIngredients_query [milk; yogurt; rice] "  ") as (_ & _ & H & _).
  split; [by apply H|reflexivity].
Defined.

(** ** Exact counts of the statistics *)

Lemma count_category_lookup c (m : tally) c' :
  count_category c m !! c' = if decide (c = c') then bump c (m !! c) else m !! c'.
Proof.
  unfold count_category, tally_get, tally_set, bump.
  destruct (c =? "__proto__")%string eqn:Ep.
  - destruct (decide (c = c')) as [<-|]; by repeat case_match.
  - destruct (decide (c = c')) as [<-|Hne].
    + destruct (m !! c) as [[|[|n]]|] eqn:E; simpl;
        rewrite ?lookup_insert_eq, ?E; try done.
      destruct (bool_decide (c ∈ Object_prototype)); simpl;
        by rewrite ?lookup_insert_eq, ?E.
    + destruct (m !! c) as [[|[|n]]|] eqn:E; simpl;
        rewrite ?lookup_insert_eq, ?E; simpl; rewrite ?lookup_insert_ne by done;
        try done.
      destruct (bool_decide (c ∈ Object_prototype)); simpl;
        rewrite ?lookup_insert_eq, ?E; simpl; by rewrite ?lookup_insert_ne by done.
Qed.

Lemma stats_count_fields status stats :
  Stats.total (stats_count status stats) = Stats.total stats ∧
  Stats.byCategory (stats_count status stats) = Stats.byCategory stats ∧
  Stats.expired (stats_count status stats)
  = ((if status_eqb status expired then 1 else 0) + Stats.expired stats)%nat ∧
  Stats.critical (stats_count status stats)
  = ((if status_eqb status critical then 1 else 0) + Stats.critical stats)%nat ∧
  Stats.warning (stats_count status stats)
  = ((if status_eqb status warning then 1 else 0) + Stats.warning stats)%nat ∧
  Stats.fresh (stats_count status stats)
  = ((if status_eqb status fresh then 1 else 0) + Stats.fresh stats)%nat.
Proof. by destruct status. Qed.

Lemma count_where_cons P a l :
  count_where P (a :: l) = ((if P a then 1 else 0) + count_where P l)%nat.
Proof. unfold count_where. simpl. by destruct (P a). Qed.

Lemma stats_fold_counts env l : ∀ s0,
  let s := fold_left (stats_step env) l s0 in
  Stats.expired s
  = (count_where (λ i, status_eqb (getExpirationStatus env i) expired) l
     + Stats.expired s0)%nat ∧
  Stats.critical s
  = (count_where (λ i, status_eqb (getExpirationStatus env i) critical) l
     + Stats.critical s0)%nat ∧
  Stats.warning s
  = (count_where (λ i, status_eqb (getExpirationStatus env i) warning) l
     + Stats.warning s0)%nat ∧
  Stats.fresh s
  = (count_where (λ i, status_eqb (getExpirationStatus env i) fresh) l
     + Stats.fresh s0)%nat.
Proof.
  induction l as [|a l IH]; intros s0; [done|].
  cbn [fold_left]. cbv zeta in IH |- *.
  destruct (IH (stats_step env s0 a)) as (He & Hc & Hw & Hf).
  destruct (stats_count_fields (getExpirationStatus env a) s0)
    as (Ft & Fb & Fe & Fc & Fw & Ff).
  rewrite He, Hc, Hw, Hf, !count_where_cons. unfold stats_step.
  cbn [Stats.expired Stats.critical Stats.warning Stats.fresh].
  rewrite Fe, Fc, Fw, Ff. split_and!; lia.
Qed.

Lemma tally_fold_lookup l : ∀ (m : tally) c,
  fold_left (λ m ing, count_category (category ing) m) l m !! c
  = Nat.iter (count_where (λ i, (category i =? c)%string) l) (bump c) (m !! c).
Proof.
  induction l as [|a l IH]; intros m c; [done|].
  cbn [fold_left]. rewrite IH, count_where_cons, count_category_lookup.
  destruct (String.eqb_spec (category a) c) as [E|E].
  - rewrite decide_True by done. rewrite E.
    change (1 + ?n)%nat with (S n). by rewrite Nat.iter_succ_r.
  - by rewrite decide_False by done.
Qed.

Lemma iter_bump_plain c n :
  c ∉ Object_prototype →
  Nat.iter n (bump c) None = match n with O => None | S _ => Some (Fin n) end.
Proof.
  intros [Hp Hq]%not_in_prototype. induction n as [|n IH]; [done|].
  rewrite Nat.iter_succ, IH. unfold bump. rewrite Hq.
  destruct n; [by rewrite Hp|done].
Qed.

Lemma iter_bump_proto n : Nat.iter n (bump "__proto__") None = None.
Proof. induction n as [|n IH]; [done|]. by rewrite Nat.iter_succ, IH. Qed.

Lemma iter_bump_inherited c n :
  c ∈ Object_prototype → c ≠ "__proto__"%string →
  Nat.iter n (bump c) None
  = match n with
    | O => None
    | 1%nat => Some NaN
    | S (S k) => Some (Fin (S k))
    end.
Proof.
  intros Hc Hq. apply String.eqb_neq in Hq.
  induction n as [|n IH]; [done|].
  rewrite Nat.iter_succ, IH. unfold bump. rewrite Hq.
  destruct n as [|[|k]]; [|done..].
  by rewrite bool_decide_eq_true_2 by done.
Qed.

(** X15. The status fields count exactly: each of the four status
    fields of [getIngredientStats] is the number of records of the array
    with that status. [byCategory] holds, for every category that is not
    the name of a member of [Object.prototype], the number of records
    with exactly that category, and no entry when there is none. For the
    name of such a member the entry is missing without a record, [NaN]
    with one record and one less than the number of records from two on;
    under [__proto__] nothing is ever recorded. *)
Theorem getIngredientStats_counts env r h l :
  h !! r = Some l →
  let stats := fst (getIngredientStats env r h) in
  Stats.expired stats
  = count_where (λ i, status_eqb (getExpirationStatus env i) expired) l ∧
  Stats.critical stats
  = count_where (λ i, status_eqb (getExpirationStatus env i) critical) l ∧
  Stats.warning stats
  = count_where (λ i, status_eqb (getExpirationStatus env i) warning) l ∧
  Stats.fresh stats
  = count_where (λ i, status_eqb (getExpirationStatus env i) fresh) l ∧
  ∀ c,
    (c ∉ Object_prototype →
     Stats.byCategory stats !! c
     = match count_where (λ i, (category i =? c)%string) l with
       | O => None
       | n => Some (Fin n)
       end) ∧
    (c ∈ Object_prototype → c ≠ "__proto__"%string →
     Stats.byCategory stats !! c
     = match count_where (λ i, (category i =? c)%string) l with
       | O => None
       | 1%nat => Some NaN
       | S (S k) => Some (Fin (S k))
       end) ∧
    Stats.byCategory stats !! "__proto__"%string = None.
Proof.
  intros Hl. unfold getIngredientStats. rewrite Hl. cbn [default fst].
  cbv [Datatypes.id].
  destruct (stats_fold_counts env l (Stats.mk (length l) 0 0 0 0 ∅))
    as (He & Hc & Hw & Hf).
  cbn [Stats.expired Stats.critical Stats.warning Stats.fresh] in *.
  rewrite He, Hc, Hw, Hf. split_and!; try lia.
  intros c. rewrite stats_fold_byCategory. cbn [Stats.byCategory].
  rewrite !tally_fold_lookup, !lookup_empty. split_and!.
  - intros Hp. rewrite (iter_bump_plain c _ Hp).
    by destruct (count_where (λ i, (category i =? c)%string) l).
  - intros Hp Hq. by rewrite (iter_bump_inherited c _ Hp Hq).
  - apply iter_bump_proto.
Qed.

Lemma getIngredientStats_counts_witness :
  let stats := fst (getIngredientStats env_tokyo 0%nat [[milk; yogurt; rice]]) in
  Stats.critical stats = 1%nat ∧ Stats.byCategory stats !! "Dairy" = Some (Fin 2%nat) ∧
  Stats.byCategory stats !! "dairy" = None.
Proof.
  destruct (getIngredientStats_counts env_tokyo 0%nat [[milk; yogurt; rice]]
              [milk; yogurt; rice] eq_refl) as (_ & Hc & _ & _ & Hb).
  destruct (Hb "Dairy"%string) as [HD _]. destruct (Hb "dairy"%string) as [Hd _].
  cbv zeta. rewrite Hc, HD, Hd; [by vm_compute|..];
    apply (bool_decide_unpack _); by vm_compute.
Defined.

(** ** Which rows get a bar *)

Lemma local_day_midnight env o t :
  fixed_offset env o → local_day env (local_midnight env t) = local_day env t.
Proof.
  intros Ho. rewrite (local_midnight_fixed env o) by done.
  rewrite !(local_day_fixed env o) by done.
  replace ((t + o) / JsDate.msPerDay * JsDate.msPerDay - o + o)
    with ((t + o) / JsDate.msPerDay * JsDate.msPerDay) by lia.
  apply Z.div_mul. rewrite msPerDay_value. lia.
Qed.

Lemma local_midnight_idem env o t :
  fixed_offset env o →
  local_midnight env (local_midnight env t) = local_midnight env t.
Proof.
  intros Ho. rewrite (local_midnight_fixed env o (local_midnight env t)) by done.
  rewrite (local_day_midnight env o) by done.
  by rewrite <- (local_midnight_fixed env o).
Qed.

Lemma barPosition_no_purchase env o windowDays ing e :
  fixed_offset env o →
  JsString.truthy (purchaseDate ing) = false →
  Date_new (expirationDate ing) = Fin e →
  barPosition env windowDays ing
  = Bar.mk
      (Fin (Qmin (Qmax 0 (percent_of windowDays 0)) 100))
      (Fin (Qmax 0 (Qmin (percent_of windowDays
                            (local_day env e - local_day env (clock env)))
                         (Double.round (100 - Qmax 0 (percent_of windowDays 0))))))
      ((local_day env e - local_day env (clock env) >=? 0) && (0 <? windowDays))
      (Fin 0)
      (Fin (local_day env e - local_day env (clock env))).
Proof.
  intros Ho Ht He. unfold barPosition, Date_now. rewrite Ht, He.
  rewrite !setHours0_Fin, (local_midnight_idem env o) by done.
  unfold date_sub, floor_div, num_map2.
  rewrite Z.sub_diag, !(local_midnight_diff env o) by done. rewrite msPerDay_value.
  change (1000 * 60 * 60 * 24) with 86400000.
  rewrite !floor_days. reflexivity.
Qed.

Lemma not_expired_iff env o ing e :
  fixed_offset env o →
  Date_new (expirationDate ing) = Fin e →
  getExpirationStatus env ing ≠ expired
  ↔ 0 ≤ local_day env e - local_day env (clock env).
Proof.
  intros Ho He. unfold getExpirationStatus.
  rewrite (calculateDaysRemaining_valid env o _ e Ho He).
  unfold num_ltZ, num_leZ, num_test.
  destruct (Z.ltb_spec (local_day env e - local_day env (clock env)) 0).
  - split; [done|lia].
  - split; [done|]. intros _.
    by repeat match goal with |- context [if ?b then _ else _] => destruct b end.
Qed.






(** X16. In a zone with a fixed offset, a record without purchase date
    is drawn from today: its bar starts at day 0 and at the left edge,
    its duration is the number of days remaining, and it is visible
    exactly when the record is not expired. *)
Theorem calculateBarPosition_without_purchaseDate env o ing e :
  fixed_offset env o →
  JsString.truthy (purchaseDate ing) = false →
  Date_new (expirationDate ing) = Fin e →
  let position := calculateBarPosition env ing in
  Bar.daysFromToday position = Fin 0 ∧
  Bar.duration position = calculateDaysRemaining env (expirationDate ing) ∧
  (∃ l, Bar.left position = Fin l ∧ (l == 0)%Q) ∧
  (Bar.visible position = true ↔ getExpirationStatus env ing ≠ expired).
Proof.
  intros Ho Ht He. cbv zeta. unfold calculateBarPosition.
  rewrite (barPosition_no_purchase env o TIMELINE_DAYS ing e Ho Ht He).
  cbn [Bar.daysFromToday Bar.duration Bar.left Bar.visible].
  rewrite (calculateDaysRemaining_valid env o _ e Ho He),
    (not_expired_iff env o ing e Ho He).
  split_and!; [done|done| |].
  - eexists. split; [reflexivity|]. by vm_compute.
  - change (0 <? TIMELINE_DAYS) with true. rewrite andb_true_r. lia.
Qed.

Lemma calculateBarPosition_without_purchaseDate_witness :
  Bar.duration (calculateBarPosition env_tokyo no_purchase) = Fin 3 ∧
  Bar.visible (calculateBarPosition env_tokyo no_purchase) = true.
Proof.
  destruct (calculateBarPosition_without_purchaseDate env_tokyo 32400000 no_purchase
              1736294400000 (λ _ _, eq_refl) eq_refl eq_refl) as (_ & Hd & _ & Hv).
  split; [by rewrite Hd|]. apply Hv. by vm_compute.
Defined.



(** X18. A date that does not parse never raises an error in
    [calculateBarPosition] and never gives a bar: when the expiration
    date, or a purchase date that is present, does not parse, the
    position is not visible, its width and duration are NaN, and
    [createIngredientRow] draws no bar. *)
Theorem calculateBarPosition_invalid_date env ing :
  Date_new (expirationDate ing) = NaN ∨
  (JsString.truthy (purchaseDate ing) = true ∧ Date_new (purchaseDate ing) = NaN) →
  Bar.visible (calculateBarPosition env ing) = false ∧
  Bar.width (calculateBarPosition env ing) = NaN ∧
  Bar.duration (calculateBarPosition env ing) = NaN ∧
  row_has_bar env ing = false.
Proof.
  intros H.
  assert (Bar.visible (calculateBarPosition env ing) = false ∧
          Bar.width (calculateBarPosition env ing) = NaN ∧
          Bar.duration (calculateBarPosition env ing) = NaN) as (Hv & Hw & Hd).
  { unfold calculateBarPosition, barPosition. cbn [Bar.visible Bar.width Bar.duration].
    destruct H as [He|[Ht Hp]].
    - rewrite He. by repeat split.
    - rewrite Ht, Hp. destruct (Date_new (expirationDate ing)); cbn.
      + by repeat split.
      + split_and!; [apply andb_false_r| |done].
        unfold Math_max, Math_min, num_map2, percent. by cbn. }
  split_and!; [done..|]. unfold row_has_bar. cbv zeta. by rewrite Hv.
Qed.

Lemma calculateBarPosition_invalid_date_witness :
  row_has_bar env_tokyo (with_dates "unknown" "2025-01-08" milk) = false.
Proof.
  apply (calculateBarPosition_invalid_date env_tokyo
           (with_dates "unknown" "2025-01-08" milk)).
  right. by split.
Defined.

(** ** The stored collection after an operation *)

Section FindFirst.
Context {A : Type} (P : A → Prop) `{!∀ x, Decision (P x)}.

Lemma find_first_cons x l :
  snd <$> list_find P (x :: l)
  = if decide (P x) then Some x else snd <$> list_find P l.
Proof.
  cbn. destruct (decide (P x)); [done|].
  by destruct (list_find P l) as [[]|].
Qed.

Lemma find_first_app l x :
  snd <$> list_find P (l ++ [x])
  = match snd <$> list_find P l with
    | Some y => Some y
    | None => if decide (P x) then Some x else None
    end.
Proof.
  induction l as [|a l IH].
  - cbn. by destruct (decide (P x)).
  - change ((a :: l) ++ [x]) with (a :: (l ++ [x])).
    rewrite !find_first_cons, IH. by destruct (decide (P a)).
Qed.

Lemma find_first_filter (Q : A → Prop) `{!∀ x, Decision (Q x)} l :
  (∀ x, P x → Q x) →
  snd <$> list_find P (filter Q l) = snd <$> list_find P l.
Proof.
  intros HPQ. induction l as [|a l IH]; [done|].
  rewrite find_first_cons. destruct (decide (Q a)) as [Ha|Ha].
  - rewrite filter_cons_True by done. rewrite find_first_cons. by rewrite IH.
  - rewrite filter_cons_False by done. rewrite IH.
    destruct (decide (P a)) as [Hp|]; [|done]. by destruct Ha; apply HPQ.
Qed.

Lemma find_first_insert_other l i x y :
  l !! i = Some x → ¬ P x → ¬ P y →
  snd <$> list_find P (<[i:=y]> l) = snd <$> list_find P l.
Proof.
  revert i. induction l as [|a l IH]; intros i Hi Hx Hy; [done|].
  destruct i as [|i].
  - cbn in Hi. injection Hi as ->.
    change (<[0%nat:=y]> (x :: l)) with (y :: l). rewrite !find_first_cons.
    by rewrite !decide_False by done.
  - change (<[S i:=y]> (a :: l)) with (a :: <[i:=y]> l). rewrite !find_first_cons.
    by rewrite (IH i Hi Hx Hy).
Qed.

Lemma find_first_insert_found l i x y :
  list_find P l = Some (i, x) → P y →
  snd <$> list_find P (<[i:=y]> l) = Some y.
Proof.
  intros (Hl & Hx & Hfirst)%list_find_Some Hy.
  assert (list_find P (<[i:=y]> l) = Some (i, y)) as ->; [|done].
  apply list_find_Some. split_and!; [|done|].
  - apply list_lookup_insert_eq. by eapply lookup_lt_Some.
  - intros j z Hj Hlt. rewrite list_lookup_insert_ne in Hj by lia. by eapply Hfirst.
Qed.

Lemma filter_keeps_length l :
  length (filter P l) = length l ↔ Forall P l.
Proof.
  induction l as [|a l IH]; [by split|].
  destruct (decide (P a)) as [Ha|Ha].
  - rewrite filter_cons_True by done. cbn [length]. rewrite Forall_cons.
    split; [intros E; split; [done|]; apply IH; lia|intros [_ Hall]; apply IH in Hall; lia].
  - rewrite filter_cons_False by done. cbn [length]. rewrite Forall_cons.
    pose proof (length_filter P l). split; [lia|tauto].
Qed.

End FindFirst.

Lemma deleteIngredient_found id st :
  Nat.eqb (length (filter (λ ing : obj, ing !! "id" ≠ Some id) (loadIngredients st)))
          (length (loadIngredients st)) = true
  ↔ getIngredientById id st = None.
Proof.
  rewrite Nat.eqb_eq, filter_keeps_length. unfold getIngredientById.
  rewrite fmap_None, list_find_None. done.
Qed.

(** X19. [addIngredient] puts the record at the end of the stored
    array, or makes it the only record when the storage holds no array
    (nothing, or text that is not an array); afterwards the lookup of an
    id answers as before when it found a record, and finds the new
    record when it found none and the new record has that id. When the
    write fails the storage is left as it was. *)
Theorem addIngredient_lookup fits ing st :
  (fits (loadIngredients st ++ [ing]) = false →
   addIngredient fits ing st = (false, st)) ∧
  (fits (loadIngredients st ++ [ing]) = true →
   ∃ st', addIngredient fits ing st = (true, st') ∧
     loadIngredients st' = loadIngredients st ++ [ing] ∧
     (st = NoItem ∨ st = ItemOther → loadIngredients st' = [ing]) ∧
     ∀ i, getIngredientById i st'
          = match getIngredientById i st with
            | Some o => Some o
            | None => if decide (ing !! "id" = Some i) then Some ing else None
            end).
Proof.
  unfold addIngredient, saveIngredients. cbv zeta. split; intros ->; [done|].
  eexists. split; [reflexivity|]. split_and!; [done| |].
  - by intros [->| ->].
  - intros i. unfold getIngredientById. cbn [loadIngredients].
    exact (find_first_app (λ o : obj, o !! "id" = Some i) (loadIngredients st) ing).
Qed.

Lemma addIngredient_lookup_witness :
  ∃ st', addIngredient unlimited (Ingredient_obj milk_again)
           (ItemArray [Ingredient_obj milk]) = (true, st') ∧
         getIngredientById (id milk) st' = Some (Ingredient_obj milk).
Proof.
  destruct (addIngredient_lookup unlimited (Ingredient_obj milk_again)
              (ItemArray [Ingredient_obj milk])) as [_ H].
  destruct (H eq_refl) as (st' & Hadd & _ & _ & Hget).
  exists st'. split; [done|]. by rewrite Hget.
Defined.

(** X20. [deleteIngredient] reports failure and changes nothing when no
    stored record has the id. When it reports success a record with the
    id was stored, no record with the id is left (all of them are
    removed, not only the first), and the lookup of every other id
    answers as before. When a record with the id is stored and the write
    succeeds, it reports success. *)
Theorem deleteIngredient_lookup fits id st :
  (getIngredientById id st = None → deleteIngredient fits id st = (false, st)) ∧
  (∀ st', deleteIngredient fits id st = (true, st') →
     is_Some (getIngredientById id st) ∧
     Forall (λ ing : obj, ing !! "id" ≠ Some id) (loadIngredients st') ∧
     ∀ i, getIngredientById i st'
          = if decide (i = id) then None else getIngredientById i st) ∧
  (is_Some (getIngredientById id st) →
   fits (filter (λ ing : obj, ing !! "id" ≠ Some id) (loadIngredients st)) = true →
   fst (deleteIngredient fits id st) = true).
Proof.
  unfold deleteIngredient. cbv zeta.
  pose proof (deleteIngredient_found id st) as Hfound.
  destruct (Nat.eqb _ _) eqn:E.
  - split_and!; [done|done|]. intros [o Ho]. destruct Hfound as [Hf _].
    by rewrite Hf in Ho.
  - assert (is_Some (getIngredientById id st)) as Hsome.
    { destruct (getIngredientById id st) eqn:G; [by eexists|].
      destruct Hfound as [_ Hf]. by specialize (Hf eq_refl). }
    split_and!.
    + intros G. rewrite G in Hsome. by destruct Hsome.
    + unfold saveIngredients. intros st' Hs.
      destruct (fits _); [|done]. injection Hs as <-. cbn [loadIngredients].
      split_and!; [done| |].
      * apply Forall_forall. by intros x [Hx _]%list_elem_of_filter.
      * intros i. unfold getIngredientById. cbn [loadIngredients].
        destruct (decide (i = id)) as [->|Hne].
        -- rewrite fmap_None, list_find_None. apply Forall_forall.
           intros x [Hx _]%list_elem_of_filter Hid. by apply Hx.
        -- apply find_first_filter. intros x Hx. rewrite Hx. congruence.
    + intros _ Hfits. unfold saveIngredients. by rewrite Hfits.
Qed.

Lemma deleteIngredient_lookup_witness :
  deleteIngredient unlimited "no such id"
    (ItemArray [Ingredient_obj milk; Ingredient_obj rice])
  = (false, ItemArray [Ingredient_obj milk; Ingredient_obj rice]).
Proof.
  destruct (deleteIngredient_lookup unlimited "no such id"
              (ItemArray [Ingredient_obj milk; Ingredient_obj rice])) as [H _].
  by apply H.
Defined.

(** X21. After a successful [updateIngredient] the stored array has the
    same length, the lookup of the updated id finds the merged record
    (in place of the first record with that id), and the lookup of every
    other id answers as before. *)
Theorem updateIngredient_lookup env fits id updates st st' :
  updateIngredient env fits id updates st = (true, st') →
  length (loadIngredients st') = length (loadIngredients st) ∧
  (∀ i, i ≠ id → getIngredientById i st' = getIngredientById i st) ∧
  ∃ original,
    getIngredientById id st = Some original ∧
    getIngredientById id st'
    = Some (<["updatedAt" := JsDate.toISOString (clock env)]>
              (<["id" := id]> (updates ∪ original))).
Proof.
  unfold updateIngredient, getIngredientById. cbv zeta.
  destruct (list_find _ (loadIngredients st)) as [[index original]|] eqn:Hfind;
    [|done].
  pose proof Hfind as (Hl & Hid & Hfirst)%list_find_Some.
  rewrite Hid. cbn [set_property]. unfold saveIngredients.
  destruct (fits _); [|done]. intros Hs. injection Hs as <-. cbn [loadIngredients].
  split_and!.
  - apply length_insert.
  - intros i Hne. apply (find_first_insert_other _ _ _ original); [done|..].
    + rewrite Hid. congruence.
    + rewrite lookup_insert_ne, lookup_insert_eq by done. congruence.
  - exists original. split; [done|].
    apply (find_first_insert_found _ _ _ original); [done|].
    by rewrite lookup_insert_ne, lookup_insert_eq.
Qed.

Lemma updateIngredient_lookup_witness :
  ∃ st', updateIngredient env_tokyo unlimited (id milk) updates_with_createdAt
           (ItemArray [Ingredient_obj milk; Ingredient_obj rice]) = (true, st') ∧
         getIngredientById (id rice) st' = Some (Ingredient_obj rice).
Proof.
  eexists. split; [reflexivity|].
  destruct (updateIngredient_lookup env_tokyo unlimited (id milk) updates_with_createdAt
              (ItemArray [Ingredient_obj milk; Ingredient_obj rice]) _ eq_refl)
    as (_ & H & _).
  rewrite H; [reflexivity|]. by vm_compute.
Defined.

(** ** Records through Firestore *)

(** X22. A record written with [addIngredientToFirestore] and read back
    by [listenToIngredientsChanges] is the record with its id replaced
    by the id of the document. In general the record read from a
    document takes its id from the data of the document when the data
    has an [id] of its own, and from the document otherwise, and every
    other property from the data; [updateIngredientInFirestore] writes
    an [id] that its data carries. *)
Theorem firestore_record_id env docId ing data :
  snapshot_record docId (addIngredientToFirestore_data ing) = <["id" := docId]> ing ∧
  (∀ i, data !! "id" = Some i → snapshot_record docId data !! "id" = Some i) ∧
  (data !! "id" = None → snapshot_record docId data !! "id" = Some docId) ∧
  (∀ k, k ≠ "id"%string → snapshot_record docId data !! k = data !! k) ∧
  updateIngredientInFirestore_fields env data !! "id" = data !! "id".
Proof.
  unfold snapshot_record, addIngredientToFirestore_data,
    updateIngredientInFirestore_fields.
  split_and!.
  - apply map_eq. intros k. rewrite lookup_union.
    destruct (decide (k = "id"%string)) as [->|Hk].
    + by rewrite lookup_delete_eq, lookup_singleton_eq, lookup_insert_eq.
    + rewrite lookup_delete_ne, lookup_singleton_ne, lookup_insert_ne by done.
      by destruct (ing !! k).
  - intros i Hi. by rewrite lookup_union, Hi, lookup_singleton_eq.
  - intros Hi. by rewrite lookup_union, Hi, lookup_singleton_eq.
  - intros k Hk. rewrite lookup_union, lookup_singleton_ne by done.
    by destruct (data !! k).
  - by rewrite lookup_insert_ne.
Qed.

Lemma firestore_record_id_witness :
  snapshot_record "doc-1" (Ingredient_obj milk) !! "id" = Some (id milk).
Proof.
  destruct (firestore_record_id env_tokyo "doc-1" (Ingredient_obj milk)
              (Ingredient_obj milk)) as (_ & H & _).
  by apply H.
Defined.
